(** * Shallow embedding of the capture core of mcsdevv/screenshot (Tauri backend)

    Modelled files:
    - src/Tauri/src-tauri/src/error.rs               (CaptureError)
    - src/Tauri/src-tauri/src/capture/config.rs      (ImageFormat, RecordingTarget, ...)
    - src/Tauri/src-tauri/src/capture/recording.rs   (recording session state machine)
    - src/Tauri/src-tauri/src/capture/screenshot.rs  (encode_cgimage_raw: pixel loop, JPEG quality)
    - src/Tauri/src-tauri/src/services/storage/manager.rs (CaptureHistory, generate_filename,
      StorageManager: save_history, save_settings, compute_storage_info, screenshots_dir)
    - src/Tauri/src-tauri/src/services/storage/commands.rs (delete_capture, toggle_favorite,
      set_storage_location)
    - src/Tauri/src-tauri/src/capture/commands.rs    (format_extension, save_screenshot, capture_* )
    - src/Tauri/src-tauri/src/capture/content_provider.rs (get_windows, get_displays)
    - src/Tauri/src-tauri/src/tray/menu.rs            (do_tray_capture_fullscreen)

    The mutex around [recording_state] is modelled by explicit state passing:
    every command takes the current [RecordingSessionState] and returns its
    result together with the state stored back under the lock; the storage
    commands run in a state and error monad over the storage manager and a
    file system whose calls fail as an environment oracle decides. *)

From Stdlib Require Import ZArith NArith List String Ascii Bool Lia.
From Corelib Require Import SpecFloat.
Import ListNotations.
Open Scope string_scope.

(** ** Floating point values (f32 / f64) as IEEE-754 binary formats *)

(** Rust's [f32]: binary32, 24 bits of precision, emax 128. *)
Definition f32 := spec_float.
(** Rust's [f64]: binary64; only carried as payload here. *)
Definition f64 := spec_float.

(** ** error.rs *)

Inductive CaptureError :=
| CaptureFailed (msg : string)
| RecordingFailed (msg : string)
| RecordingNotActive
| StorageError (msg : string)
| OcrFailed (msg : string)
| PermissionDenied (msg : string)
| InvalidConfig (msg : string)
| Io (msg : string)
| Json (msg : string)
| Image (msg : string).

(** Rust's [Result<T, E>]. *)
Inductive result (T E : Type) :=
| Ok (v : T)
| Err (e : E).
Arguments Ok {T E} v.
Arguments Err {T E} e.

(** ** capture/config.rs *)

Inductive QualityPreset := Low | Medium | High.

Inductive ImageFormat :=
| Png
| Jpeg (quality : f32)
| Tiff.

Inductive RecordingTarget :=
| Fullscreen (display_id : option Z)
| Area (x y width height : f64) (display_id : Z)
| Window (window_id : Z).

Record RecordingConfig := {
  quality : QualityPreset;
  fps : Z;
  include_cursor : bool;
  show_mouse_clicks : bool;
  include_microphone : bool;
  include_system_audio : bool;
  exclude_app_audio : bool;
}.

(** ** services/storage/manager.rs : data *)

Module Storage.

Inductive CaptureType := Screenshot | Recording | Gif.

Record CaptureItem := {
  id : string;
  capture_type : CaptureType;
  filename : string;
  created_at : string;
  is_favorite : bool;
}.

Record CaptureHistory := { items : list CaptureItem }.

(** [CaptureHistory::new] *)
Definition new_history : CaptureHistory := {| items := [] |}.

(** [add]: [self.items.push(item)]. *)
Definition add (h : CaptureHistory) (item : CaptureItem) : CaptureHistory :=
  {| items := items h ++ [item] |}.

(** [remove]: [retain(|i| i.id != id)], then [len_after < len_before]. *)
Definition remove (h : CaptureHistory) (id0 : string) : bool * CaptureHistory :=
  let len_before := List.length (items h) in
  let items' := filter (fun i => negb (String.eqb (id i) id0)) (items h) in
  (Nat.ltb (List.length items') len_before, {| items := items' |}).

(** [toggle_favorite]: flips the flag of the first item with the id. *)
Fixpoint toggle_first (l : list CaptureItem) (id0 : string) : option (list CaptureItem) :=
  match l with
  | [] => None
  | i :: l' =>
      if String.eqb (id i) id0 then
        Some ({| id := id i; capture_type := capture_type i; filename := filename i;
                 created_at := created_at i; is_favorite := negb (is_favorite i) |} :: l')
      else option_map (cons i) (toggle_first l' id0)
  end.

Definition toggle_favorite (h : CaptureHistory) (id0 : string) : bool * CaptureHistory :=
  match toggle_first (items h) id0 with
  | Some l => (true, {| items := l |})
  | None => (false, h)
  end.

(** *** [generate_filename] and the chrono formatting it uses *)

(** The value of [chrono::Local::now()] as its local calendar fields.
    chrono encodes a leap second as [nanosecond >= 1_000_000_000]. *)
Record LocalDateTime := {
  year : Z;
  month : N;
  day : N;
  hour : N;
  minute : N;
  second : N;
  nanosecond : N;
}.

(** Fields of a well-formed chrono value. *)
Definition valid_dt (t : LocalDateTime) : bool :=
  (1 <=? month t)%N && (month t <=? 12)%N && (1 <=? day t)%N && (day t <=? 31)%N &&
  (hour t <? 24)%N && (minute t <? 60)%N && (second t <? 60)%N &&
  (nanosecond t <? 2000000000)%N.

Definition digit (n : N) : ascii := ascii_of_N (48 + n).

(** chrono's [write_two(w, n, Pad::Zero)] for [n < 100]: two decimal digits. *)
Definition write_two (n : N) : string :=
  String (digit ((n / 10) mod 10)) (String (digit (n mod 10)) EmptyString).

(** Decimal rendering of a natural number (Rust's [Display] for integers). *)
Fixpoint string_of_N_aux (fuel : nat) (n : N) (acc : string) : string :=
  match fuel with
  | O => acc
  | S f =>
      let acc' := String (digit (n mod 10)) acc in
      if (n <? 10)%N then acc' else string_of_N_aux f (n / 10) acc'
  end.

Definition string_of_N (n : N) : string := string_of_N_aux (S (N.size_nat n)) n EmptyString.

Fixpoint zeros (k : nat) : string :=
  match k with O => EmptyString | S k' => String "0" (zeros k') end.

(** [%Y]: years in [0, 9999] as two [write_two]; others as [{:+05}]. *)
Definition fmt_year (y : Z) : string :=
  if ((0 <=? y) && (y <=? 9999))%Z then
    write_two (Z.to_N (y / 100)) ++ write_two (Z.to_N (y mod 100))
  else
    let s := string_of_N (Z.abs_N y) in
    String (if (y <? 0)%Z then "-" else "+") (zeros (4 - String.length s) ++ s).

(** [%S]: [second + nanosecond / 1_000_000_000] (60 during a leap second). *)
Definition shown_second (t : LocalDateTime) : N := (second t + nanosecond t / 1000000000)%N.

(** [now.format("%Y-%m-%d at %H.%M.%S")] *)
Definition format_timestamp (t : LocalDateTime) : string :=
  fmt_year (year t) ++ "-" ++ write_two (month t) ++ "-" ++ write_two (day t) ++
  " at " ++ write_two (hour t) ++ "." ++ write_two (minute t) ++ "." ++
  write_two (shown_second t).

Definition prefix (ct : CaptureType) : string :=
  match ct with
  | Screenshot => "Screenshot"
  | Recording => "Recording"
  | Gif => "GIF"
  end.

(** [generate_filename]: the clock reading [now] is an explicit argument. *)
Definition generate_filename (now : LocalDateTime) (ct : CaptureType) (extension : string)
    : string :=
  prefix ct ++ " " ++ format_timestamp now ++ "." ++ extension.

(** Two clock readings within the same local second (as the clock shows it). *)
Definition same_second (a b : LocalDateTime) : Prop :=
  year a = year b /\ month a = month b /\ day a = day b /\ hour a = hour b /\
  minute a = minute b /\ shown_second a = shown_second b.

(** Reading back a decimal digit and a fixed-width decimal field. *)
Definition read_digit (c : ascii) : option N :=
  let n := N_of_ascii c in
  if ((48 <=? n) && (n <? 58))%N then Some (n - 48)%N else None.

Fixpoint read_digits (k : nat) (s : string) (acc : N) : option (N * string) :=
  match k with
  | O => Some (acc, s)
  | S k' =>
      match s with
      | EmptyString => None
      | String c s' =>
          match read_digit c with
          | Some d => read_digits k' s' (acc * 10 + d)%N
          | None => None
          end
      end
  end.

Definition expect (c : ascii) (s : string) : option string :=
  match s with
  | String c' s' => if Ascii.eqb c c' then Some s' else None
  | EmptyString => None
  end.

(** Parser of the layout ["YYYY-MM-DD at HH.MM.SS"], returning the six fields. *)
Definition parse_timestamp (s : string) : option (N * N * N * N * N * N) :=
  match read_digits 4 s 0 with None => None | Some (y, s) =>
  match expect "-" s with None => None | Some s =>
  match read_digits 2 s 0 with None => None | Some (mo, s) =>
  match expect "-" s with None => None | Some s =>
  match read_digits 2 s 0 with None => None | Some (d, s) =>
  match expect " " s with None => None | Some s =>
  match expect "a" s with None => None | Some s =>
  match expect "t" s with None => None | Some s =>
  match expect " " s with None => None | Some s =>
  match read_digits 2 s 0 with None => None | Some (h, s) =>
  match expect "." s with None => None | Some s =>
  match read_digits 2 s 0 with None => None | Some (mi, s) =>
  match expect "." s with None => None | Some s =>
  match read_digits 2 s 0 with None => None | Some (se, s) =>
  match s with EmptyString => Some (y, mo, d, h, mi, se) | _ => None end
  end end end end end end end end end end end end end end.

(** Spec-side reading of [remove(id)] (not from the source): delete every
    item carrying the id, keep every other item in place. *)
Fixpoint drop_id (id0 : string) (l : list CaptureItem) : list CaptureItem :=
  match l with
  | [] => []
  | i :: l' => if String.eqb (id i) id0 then drop_id id0 l' else i :: drop_id id0 l'
  end.

End Storage.

(** ** capture/recording.rs *)

Module Rec.

Inductive RecordingSessionState :=
| Idle
| Selecting
| Starting
| Recording (elapsed_seconds : f64)
| Stopping
| Completed
| Failed (message : string)
| Cancelled.

(** [matches!(rs deref, Recording { .. } | Starting)] *)
Definition is_recording_or_starting (s : RecordingSessionState) : bool :=
  match s with
  | Recording _ | Starting => true
  | _ => false
  end.

(** [matches!(rs deref, Recording { .. })] *)
Definition is_recording (s : RecordingSessionState) : bool :=
  match s with
  | Recording _ => true
  | _ => false
  end.

(** [start_recording]: reads the state under the lock, never writes it. *)
Definition start_recording (_target : RecordingTarget) (_config : RecordingConfig)
    (rs : RecordingSessionState) : result unit CaptureError * RecordingSessionState :=
  if is_recording_or_starting rs then
    (Err (RecordingFailed "Recording already in progress"), rs)
  else
    (Err (RecordingFailed
      "Screen recording requires ScreenCaptureKit Swift bridge (not yet integrated)"), rs).

(** [stop_recording]: the lock is dropped without writing the state. *)
Definition stop_recording (rs : RecordingSessionState)
    : result Storage.CaptureItem CaptureError * RecordingSessionState :=
  if negb (is_recording rs) then (Err RecordingNotActive, rs)
  else
    (Err (RecordingFailed
      "Screen recording stop requires ScreenCaptureKit Swift bridge (not yet integrated)"), rs).

(** [cancel_recording] *)
Definition cancel_recording (rs : RecordingSessionState)
    : result unit CaptureError * RecordingSessionState :=
  if negb (is_recording rs) then (Err RecordingNotActive, rs)
  else (Ok tt, Cancelled).

(** [get_state]: a clone of the stored state. *)
Definition get_state (rs : RecordingSessionState) : RecordingSessionState := rs.

(** The commands of recording.rs reachable from the command surface. *)
Inductive Command :=
| CStart (t : RecordingTarget) (c : RecordingConfig)
| CStop
| CCancel
| CGetState.

(** Stored state after one command. *)
Definition exec (c : Command) (rs : RecordingSessionState) : RecordingSessionState :=
  match c with
  | CStart t cfg => snd (start_recording t cfg rs)
  | CStop => snd (stop_recording rs)
  | CCancel => snd (cancel_recording rs)
  | CGetState => rs
  end.

(** Stored states visited by a sequence of commands (the initial one excluded). *)
Fixpoint trace (cs : list Command) (rs : RecordingSessionState) : list RecordingSessionState :=
  match cs with
  | [] => []
  | c :: cs' => let rs' := exec c rs in rs' :: trace cs' rs'
  end.

Definition is_terminal (s : RecordingSessionState) : bool :=
  match s with
  | Completed | Failed _ | Cancelled => true
  | _ => false
  end.

End Rec.

(** ** capture/screenshot.rs : [encode_cgimage_raw] *)

Module Shot.
Local Open Scope N_scope.

(** The metadata read from the [CGImage] ([CGImageGetWidth], ...);
    [usize] values as [N], the [u32] bitmap info as [Z]. *)
Record CGImageInfo := {
  width : N;
  height : N;
  bytes_per_row : N;
  bits_per_pixel : N;
  bitmap_info : Z;
}.

(** [byte_order == 0x2000 || (bits_per_pixel == 32 && alpha_info != 0)] *)
Definition is_bgra (img : CGImageInfo) : bool :=
  let byte_order := Z.land (bitmap_info img) 28672 (* 0x7000 *) in
  let alpha_info := Z.land (bitmap_info img) 31 (* 0x1F *) in
  Z.eqb byte_order 8192 (* 0x2000 *) ||
  (N.eqb (bits_per_pixel img) 32 && negb (Z.eqb alpha_info 0)).

Definition len (pixel_data : list Byte.byte) : N := N.of_nat (List.length pixel_data).

(** [pixel_data[i]]; only evaluated at in-bounds indices. *)
Definition at_ (pixel_data : list Byte.byte) (i : N) : Byte.byte :=
  nth (N.to_nat i) pixel_data Byte.x00.

(** Body of the inner loop: the bytes pushed for the pixel at [px_offset]. *)
Definition pixel_bytes (bgra : bool) (pixel_data : list Byte.byte) (px_offset : N)
    : list Byte.byte :=
  if N.ltb (px_offset + 3) (len pixel_data) then
    if bgra then
      [at_ pixel_data (px_offset + 2); at_ pixel_data (px_offset + 1);
       at_ pixel_data px_offset; at_ pixel_data (px_offset + 3)]
    else
      [at_ pixel_data px_offset; at_ pixel_data (px_offset + 1);
       at_ pixel_data (px_offset + 2); at_ pixel_data (px_offset + 3)]
  else [].

(** [for i in 0..n] *)
Definition range (n : N) : list N := map N.of_nat (seq 0 (N.to_nat n)).

(** The two nested [for] loops: the bytes pushed into [rgba], in order.
    Index arithmetic is unbounded (no [usize] overflow). *)
Definition rgba_loop (img : CGImageInfo) (pixel_data : list Byte.byte) : list Byte.byte :=
  let bgra := is_bgra img in
  let bytes_per_pixel := N.div (bits_per_pixel img) 8 in
  flat_map (fun y =>
    let row_start := y * bytes_per_row img in
    flat_map (fun x => pixel_bytes bgra pixel_data (row_start + x * bytes_per_pixel))
             (range (width img)))
    (range (height img)).

(** [x as u32] for a [usize]. *)
Definition as_u32 (n : N) : N := n mod 4294967296.

(** [RgbaImage::from_raw(w, h, buf)] (image crate): [Some] when
    [4 * w * h] (a [checked_mul] in 64-bit [usize]) is at most [buf.len()]. *)
Definition from_raw (w h : N) (buf : list Byte.byte) : option (N * N * list Byte.byte) :=
  let need := 4 * w * h in
  if N.ltb need 18446744073709551616 && N.leb need (len buf)
  then Some (w, h, buf) else None.

(** Pixel normalisation part of [encode_cgimage_raw] (lines 123-178): the
    pixel bytes [pixel_data] are those of the copied [CFData]; the null
    data-provider / null data checks concern the platform handle and are
    not modelled. On success the RGBA buffer of the [RgbaImage] is returned.
    Arithmetic is unbounded here; [encode_pixels] below is the same loop
    with [usize] overflow, [Vec] capacity and panics, and
    [encode_pixels_normalize] shows that every run of it that returns agrees
    with [normalize]. *)
Definition normalize (img : CGImageInfo) (pixel_data : list Byte.byte)
    : result (list Byte.byte) CaptureError :=
  if N.eqb (width img) 0 || N.eqb (height img) 0 then
    Err (CaptureFailed "Empty image")
  else
    let rgba := rgba_loop img pixel_data in
    match from_raw (as_u32 (width img)) (as_u32 (height img)) rgba with
    | Some (_, _, buf) => Ok buf
    | None => Err (CaptureFailed "Pixel buffer size mismatch")
    end.

(** Offset of pixel [(x, y)]: [y * bytes_per_row + x * bytes_per_pixel]. *)
Definition px_offset (img : CGImageInfo) (x y : N) : N :=
  y * bytes_per_row img + x * N.div (bits_per_pixel img) 8.

(** Some pixel's 4-byte range [px_offset .. px_offset + 3] leaves the buffer. *)
Definition some_pixel_out_of_range (img : CGImageInfo) (pixel_data : list Byte.byte) : Prop :=
  exists x y : N, x < width img /\ y < height img /\
    len pixel_data <= px_offset img x y + 3.

(** *** The pixel loop with [usize] arithmetic, [Vec] capacity and panics

    [normalize] above computes offsets in unbounded [N], which is what the
    code computes on every run in which no [usize] operation overflows.
    [encode_pixels] is the loop as the machine runs it: [None] is a run that
    panics or aborts (no [Result] is returned). [checks] is the build's
    [overflow-checks] setting: with it (debug builds) an overflowing [+] or
    [*] panics, without it (release builds) it wraps. [heap] is the largest
    block the allocator grants; a larger request aborts the process
    ([handle_alloc_error]). *)

(** [usize::MAX + 1] and [isize::MAX] on a 64-bit target. *)
Definition usize_limit : N := 18446744073709551616.
Definition isize_max : N := 9223372036854775807.

Definition obind {A B} (m : option A) (k : A -> option B) : option B :=
  match m with Some a => k a | None => None end.

Local Notation "'let?' x := m 'in' k" := (obind m (fun x => k))
  (at level 200, x name, m at level 200, k at level 200).

(** The result of a [usize] [+] or [*] whose exact value is [v]. *)
Definition usize_result (checks : bool) (v : N) : option N :=
  if v <? usize_limit then Some v
  else if checks then None else Some (v mod usize_limit).

Definition usize_add (checks : bool) (a b : N) : option N := usize_result checks (a + b).
Definition usize_mul (checks : bool) (a b : N) : option N := usize_result checks (a * b).

(** [pixel_data[i]]: an index out of bounds panics. *)
Definition index (pixel_data : list Byte.byte) (i : N) : option Byte.byte :=
  if i <? len pixel_data then Some (at_ pixel_data i) else None.

(** A [Vec<u8>]: its capacity and its contents. *)
Record RVec := { cap : N; buf : list Byte.byte }.

(** [Vec::<u8>::with_capacity(n)]: [Layout::array] refuses more than
    [isize::MAX] bytes ("capacity overflow" panic); [0] allocates nothing. *)
Definition with_capacity (heap n : N) : option RVec :=
  if isize_max <? n then None
  else if heap <? n then None
  else Some {| cap := n; buf := [] |}.

(** [Vec::push]: when full, [RawVec::grow_amortized] asks for
    [max(8, max(2 * cap, len + 1))] bytes, with the same two failures. *)
Definition push (heap : N) (v : RVec) (b : Byte.byte) : option RVec :=
  if len (buf v) <? cap v then Some {| cap := cap v; buf := buf v ++ [b] |}
  else
    let c := N.max 8 (N.max (2 * cap v) (len (buf v) + 1)) in
    if isize_max <? c then None
    else if heap <? c then None
    else Some {| cap := c; buf := buf v ++ [b] |}.

(** Body of the inner loop (lines 161-173); each [rgba.push(pixel_data[i])]
    computes [i], indexes, then pushes. *)
Definition pixel_step (checks : bool) (heap : N) (bgra : bool) (pixel_data : list Byte.byte)
    (px_offset : N) (rgba : RVec) : option RVec :=
  let? o3 := usize_add checks px_offset 3 in
  if o3 <? len pixel_data then
    if bgra then
      let? i := usize_add checks px_offset 2 in let? b := index pixel_data i in
      let? rgba := push heap rgba b in
      let? i := usize_add checks px_offset 1 in let? b := index pixel_data i in
      let? rgba := push heap rgba b in
      let? b := index pixel_data px_offset in
      let? rgba := push heap rgba b in
      let? i := usize_add checks px_offset 3 in let? b := index pixel_data i in
      push heap rgba b
    else
      let? b := index pixel_data px_offset in
      let? rgba := push heap rgba b in
      let? i := usize_add checks px_offset 1 in let? b := index pixel_data i in
      let? rgba := push heap rgba b in
      let? i := usize_add checks px_offset 2 in let? b := index pixel_data i in
      let? rgba := push heap rgba b in
      let? i := usize_add checks px_offset 3 in let? b := index pixel_data i in
      push heap rgba b
  else Some rgba.

(** [for i in l { body }] over a state that a panic discards. *)
Fixpoint for_each {A} (l : list N) (body : N -> A -> option A) (a : A) : option A :=
  match l with
  | [] => Some a
  | i :: l' => let? a' := body i a in for_each l' body a'
  end.

(** The two nested loops (lines 157-176). *)
Definition pixel_loop (checks : bool) (heap : N) (img : CGImageInfo)
    (pixel_data : list Byte.byte) (rgba : RVec) : option RVec :=
  let bgra := is_bgra img in
  let bytes_per_pixel := N.div (bits_per_pixel img) 8 in
  for_each (range (height img)) (fun y rgba =>
    let? row_start := usize_mul checks y (bytes_per_row img) in
    for_each (range (width img)) (fun x rgba =>
      let? t := usize_mul checks x bytes_per_pixel in
      let? px_offset := usize_add checks row_start t in
      pixel_step checks heap bgra pixel_data px_offset rgba) rgba) rgba.

(** Lines 129-178 of [encode_cgimage_raw] up to [RgbaImage::from_raw], as
    [normalize], with [width * height * 4] and [Vec::with_capacity]. *)
Definition encode_pixels (checks : bool) (heap : N) (img : CGImageInfo)
    (pixel_data : list Byte.byte) : option (result (list Byte.byte) CaptureError) :=
  if N.eqb (width img) 0 || N.eqb (height img) 0 then
    Some (Err (CaptureFailed "Empty image"))
  else
    let? wh := usize_mul checks (width img) (height img) in
    let? n := usize_mul checks wh 4 in
    let? rgba := with_capacity heap n in
    let? rgba := pixel_loop checks heap img pixel_data rgba in
    Some (match from_raw (as_u32 (width img)) (as_u32 (height img)) (buf rgba) with
          | Some (_, _, b) => Ok b
          | None => Err (CaptureFailed "Pixel buffer size mismatch")
          end).

(** Inputs as the platform delivers them: [usize] metadata and a Rust
    slice, which holds at most [isize::MAX] bytes. *)
Definition wf (img : CGImageInfo) (pixel_data : list Byte.byte) : Prop :=
  width img < usize_limit /\ height img < usize_limit /\
  bytes_per_row img < usize_limit /\ bits_per_pixel img < usize_limit /\
  len pixel_data <= isize_max.

(** Some pixel's offset [px_offset + 3] does not fit in a [usize]. *)
Definition offset_overflows (img : CGImageInfo) : Prop :=
  exists x y : N, x < width img /\ y < height img /\ usize_limit <= px_offset img x y + 3.

(** Auxiliary views of the loop used in the proofs: the pushes of a list of
    bytes, the bytes a pixel contributes (the body's reads without its
    pushes) and the bytes of the two loops without the vector. *)
Fixpoint push_all (heap : N) (v : RVec) (bs : list Byte.byte) : option RVec :=
  match bs with
  | [] => Some v
  | b :: bs' => let? v' := push heap v b in push_all heap v' bs'
  end.

Definition pixel_read (checks bgra : bool) (pixel_data : list Byte.byte) (px_offset : N)
    : option (list Byte.byte) :=
  let? o3 := usize_add checks px_offset 3 in
  if o3 <? len pixel_data then
    if bgra then
      let? i := usize_add checks px_offset 2 in let? r := index pixel_data i in
      let? i := usize_add checks px_offset 1 in let? g := index pixel_data i in
      let? b := index pixel_data px_offset in
      let? i := usize_add checks px_offset 3 in let? a := index pixel_data i in
      Some [r; g; b; a]
    else
      let? r := index pixel_data px_offset in
      let? i := usize_add checks px_offset 1 in let? g := index pixel_data i in
      let? i := usize_add checks px_offset 2 in let? b := index pixel_data i in
      let? i := usize_add checks px_offset 3 in let? a := index pixel_data i in
      Some [r; g; b; a]
  else Some [].

Fixpoint for_concat {A} (l : list N) (f : N -> option (list A)) : option (list A) :=
  match l with
  | [] => Some []
  | i :: l' => let? a := f i in let? b := for_concat l' f in Some (a ++ b)%list
  end.

Definition oget {A} (o : option (list A)) : list A :=
  match o with Some l => l | None => [] end.

Definition pixel_val (checks : bool) (img : CGImageInfo) (pixel_data : list Byte.byte)
    (x row_start : N) : option (list Byte.byte) :=
  let? t := usize_mul checks x (N.div (bits_per_pixel img) 8) in
  let? px_offset := usize_add checks row_start t in
  pixel_read checks (is_bgra img) pixel_data px_offset.

Definition rgba_reads (checks : bool) (img : CGImageInfo) (pixel_data : list Byte.byte)
    : option (list Byte.byte) :=
  for_concat (range (height img)) (fun y =>
    let? row_start := usize_mul checks y (bytes_per_row img) in
    for_concat (range (width img)) (fun x => pixel_val checks img pixel_data x row_start)).

(** *** JPEG quality: [let q = (quality deref * 100.0) as u8;] *)

Definition f32_mul : f32 -> f32 -> f32 := SFmul 24 128.

(** [100.0_f32] = 13107200 * 2^-17. *)
Definition f32_100 : f32 := S754_finite false 13107200 (-17).

(** Rust's [f as u8]: truncation toward zero, saturating to 0..=255, NaN to 0. *)
Definition f32_as_u8 (f : f32) : Z :=
  match f with
  | S754_zero _ => 0
  | S754_nan => 0
  | S754_infinity s => if s then 0 else 255
  | S754_finite s m e =>
      let t := if Z.leb 0 e then Z.shiftl (Zpos m) e else Z.shiftr (Zpos m) (- e) in
      let v := if s then - t else t in
      Z.max 0 (Z.min 255 v)
  end%Z.

Definition jpeg_quality (quality : f32) : Z := f32_as_u8 (f32_mul quality f32_100).

(** The quality handed to [JpegEncoder::new_with_quality], per format. *)
Definition encoder_quality (format : ImageFormat) : option Z :=
  match format with
  | Jpeg quality => Some (jpeg_quality quality)
  | Png | Tiff => None
  end.

End Shot.

(** ** services/storage: the storage manager and its commands with their
    file system effects *)

Module StorageIO.
Import Storage.

Inductive StorageLocation :=
| Default
| Desktop
| Custom (path : string).

Record StorageManager := {
  history : CaptureHistory;
  location : StorageLocation;
}.

(** [StorageInfo]; its [location] field is [info_location] here. *)
Record StorageInfo := {
  info_location : StorageLocation;
  path : string;
  total_items : N;
  total_size_bytes : N;
}.

(** *** Paths: [Path::join] / [PathBuf::push] on Unix *)

Definition is_absolute (p : string) : bool :=
  match p with
  | String c _ => Ascii.eqb c "/"
  | EmptyString => false
  end.

(** The last byte of the path is a separator. *)
Fixpoint ends_with_sep (p : string) : bool :=
  match p with
  | EmptyString => false
  | String c EmptyString => Ascii.eqb c "/"
  | String _ p' => ends_with_sep p'
  end.

(** An absolute [p] replaces [base]; otherwise a separator is inserted when
    [base] is non-empty and does not already end in one. *)
Definition join (base p : string) : string :=
  if is_absolute p then p
  else if String.eqb base "" || ends_with_sep base then base ++ p
  else base ++ "/" ++ p.

(** *** The environment: platform directories, I/O outcomes, serializers *)

(** A file system call, as seen by the I/O outcome oracle. *)
Inductive FsOp :=
| CreateDirAll (p : string)
| WriteFile (p : string)
| RemoveFile (p : string).

(** [env_data_dir] and [env_desktop_dir] are [dirs::data_dir()] and
    [dirs::desktop_dir()]; [io_error n op] is the error text of the [n]-th
    file system call [op] when it fails; [history_json] and [settings_json]
    are [serde_json::to_string_pretty] (which cannot fail on these types). *)
Record Env := {
  env_data_dir : option string;
  env_desktop_dir : option string;
  io_error : nat -> FsOp -> option string;
  history_json : CaptureHistory -> list Byte.byte;
  settings_json : StorageLocation -> list Byte.byte;
}.

Record Fs := {
  files : list (string * list Byte.byte);
  dirs : list string;
  ticks : nat;
}.

(** The storage manager behind its mutex, and the file system. *)
Record World := {
  storage : StorageManager;
  fs : Fs;
}.

Fixpoint put_file (p : string) (c : list Byte.byte) (l : list (string * list Byte.byte))
    : list (string * list Byte.byte) :=
  match l with
  | [] => [(p, c)]
  | (q, c') :: l' => if String.eqb q p then (p, c) :: l' else (q, c') :: put_file p c l'
  end.

Definition del_file (p : string) (l : list (string * list Byte.byte))
    : list (string * list Byte.byte) :=
  filter (fun qc => negb (String.eqb (fst qc) p)) l.

Definition lookup_file (p : string) (l : list (string * list Byte.byte))
    : option (list Byte.byte) :=
  match find (fun qc => String.eqb (fst qc) p) l with
  | Some (_, c) => Some c
  | None => None
  end.

(** *** A state and error monad: [x <- m ;; k] is Rust's [let x = m?; k] *)

Definition M (A : Type) : Type := Env -> World -> result A CaptureError * World.

Definition ret {A} (a : A) : M A := fun _ w => (Ok a, w).

Definition throw {A} (er : CaptureError) : M A := fun _ w => (Err er, w).

Definition bind {A B} (m : M A) (k : A -> M B) : M B :=
  fun e w =>
    match m e w with
    | (Ok a, w') => k a e w'
    | (Err er, w') => (Err er, w')
    end.

Notation "x <- m ;; k" := (bind m (fun x => k))
  (at level 61, m at next level, right associativity).
Notation "m ;; k" := (bind m (fun _ => k)) (at level 61, right associativity).

(** [let _ = m;] *)
Definition ignore {A} (m : M A) : M unit := fun e w => (Ok tt, snd (m e w)).

(** [if let Err(_) = m { .. }]: whether [m] succeeded. *)
Definition attempt {A} (m : M A) : M bool :=
  fun e w =>
    let (r, w') := m e w in
    (Ok (match r with Ok _ => true | Err _ => false end), w').

Definition ask : M Env := fun e w => (Ok e, w).

Definition get : M StorageManager := fun _ w => (Ok (storage w), w).

Definition put (s : StorageManager) : M unit :=
  fun _ w => (Ok tt, {| storage := s; fs := fs w |}).

(** One file system call: it fails with the oracle's error, or applies its
    effect. *)
Definition fs_call (op : FsOp) (upd : Fs -> Fs) : M unit :=
  fun e w =>
    let f := fs w in
    let f1 := {| files := files f; dirs := dirs f; ticks := S (ticks f) |} in
    match io_error e (ticks f) op with
    | Some msg => (Err (Io msg), {| storage := storage w; fs := f1 |})
    | None => (Ok tt, {| storage := storage w; fs := upd f1 |})
    end.

(** [std::fs::create_dir_all]: the empty path succeeds without a call. *)
Definition create_dir_all (p : string) : M unit :=
  if String.eqb p "" then ret tt
  else fs_call (CreateDirAll p)
         (fun f => {| files := files f; dirs := p :: dirs f; ticks := ticks f |}).

(** [std::fs::write] *)
Definition write (p : string) (c : list Byte.byte) : M unit :=
  fs_call (WriteFile p)
    (fun f => {| files := put_file p c (files f); dirs := dirs f; ticks := ticks f |}).

(** [std::fs::remove_file] *)
Definition remove_file (p : string) : M unit :=
  fs_call (RemoveFile p)
    (fun f => {| files := del_file p (files f); dirs := dirs f; ticks := ticks f |}).

(** *** [StorageManager] (manager.rs) *)

(** [data_dir]: [dirs::data_dir().unwrap_or("/tmp").join("ScreenCapture")] *)
Definition data_dir (e : Env) : string :=
  join (match env_data_dir e with Some d => d | None => "/tmp" end) "ScreenCapture".

(** [screenshots_dir] *)
Definition screenshots_dir (e : Env) (s : StorageManager) : string :=
  match location s with
  | Default => join (data_dir e) "Screenshots"
  | Desktop => match env_desktop_dir e with Some d => d | None => "" end
  | Custom p => p
  end.

(** [save_history] *)
Definition save_history : M unit :=
  e <- ask ;; s <- get ;;
  create_dir_all (data_dir e) ;;
  write (join (data_dir e) "history.json") (history_json e (history s)).

(** [save_settings] *)
Definition save_settings : M unit :=
  e <- ask ;; s <- get ;;
  create_dir_all (data_dir e) ;;
  write (join (data_dir e) "settings.json") (settings_json e (location s)).

(** [u64] / [usize] addition of a release build (wrapping). *)
Definition wrap64 (n : N) : N := (n mod 18446744073709551616)%N.

(** [entries.filter_map(|e| e.ok())] *)
Fixpoint filter_ok {A} (l : list (option A)) : list A :=
  match l with
  | [] => []
  | Some a :: l' => a :: filter_ok l'
  | None :: l' => filter_ok l'
  end.

(** [compute_storage_info]: [dir_exists] is [dir.exists()]; [entries] is
    [None] when [read_dir] fails, else one element per entry: [None] for an
    [Err] entry, [Some None] when [metadata()] fails, [Some (Some n)] for a
    length [n]. *)
Definition compute_storage_info (e : Env) (s : StorageManager) (dir_exists : bool)
    (entries : option (list (option (option N)))) : StorageInfo :=
  let dir := screenshots_dir e s in
  let '(total_items, total_size_bytes) :=
    if dir_exists then
      match entries with
      | Some l =>
          fold_left (fun '(c, sz) entry =>
                       (wrap64 (c + 1), wrap64 (sz + match entry with
                                                      | Some m => m
                                                      | None => 0 end)))%N
                    (filter_ok l) (0%N, 0%N)
      | None => (0%N, 0%N)
      end
    else (0%N, 0%N) in
  {| info_location := location s; path := dir;
     total_items := total_items; total_size_bytes := total_size_bytes |}.

(** [CaptureItem::new_screenshot]: [uuid] is [Uuid::new_v4().to_string()],
    [created] is [Utc::now().to_rfc3339()]. *)
Definition new_screenshot (uuid created : string) (filename : string) : CaptureItem :=
  {| id := uuid; capture_type := Screenshot; filename := filename;
     created_at := created; is_favorite := false |}.

(** *** capture/commands.rs *)

Definition format_extension (format : ImageFormat) : string :=
  match format with
  | Png => "png"
  | Jpeg _ => "jpg"
  | Tiff => "tiff"
  end.

(** [save_screenshot]; [now] is the [chrono::Local::now()] read by
    [generate_filename]. *)
Definition save_screenshot (data : list Byte.byte) (format : ImageFormat)
    (now : LocalDateTime) (uuid created : string) : M CaptureItem :=
  e <- ask ;; s <- get ;;
  let ext := format_extension format in
  let filename := generate_filename now Screenshot ext in
  let dir := screenshots_dir e s in
  create_dir_all dir ;;
  write (join dir filename) data ;;
  let item := new_screenshot uuid created filename in
  put {| history := add (history s) item; location := location s |} ;;
  save_history ;;
  ret item.

(** [capture_fullscreen] / [capture_area] / [capture_window]: [captured] is
    the awaited result of the platform capture. *)
Definition capture_command (captured : result (list Byte.byte) CaptureError)
    (format : ImageFormat) (now : LocalDateTime) (uuid created : string) : M CaptureItem :=
  match captured with
  | Err er => throw er
  | Ok data => save_screenshot data format now uuid created
  end.

(** *** tray/menu.rs : [do_tray_capture_fullscreen]; the result is the item
    emitted with ["capture:completed"], if any. *)
Definition do_tray_capture_fullscreen (captured : result (list Byte.byte) CaptureError)
    (now : LocalDateTime) (uuid created : string) : M (option CaptureItem) :=
  match captured with
  | Err _ => ret None
  | Ok data =>
      e <- ask ;; s <- get ;;
      let filename := generate_filename now Screenshot "png" in
      let dir := screenshots_dir e s in
      ignore (create_dir_all dir) ;;
      written <- attempt (write (join dir filename) data) ;;
      if negb written then ret None
      else
        let item := new_screenshot uuid created filename in
        put {| history := add (history s) item; location := location s |} ;;
        ignore save_history ;;
        ret (Some item)
  end.

End StorageIO.

(** *** services/storage/commands.rs *)

Module StorageCommands.
Import StorageIO.

(** [delete_capture] *)
Definition delete_capture (id0 : string) : M bool :=
  e <- ask ;; s <- get ;;
  let fname := option_map Storage.filename
                 (find (fun i => String.eqb (Storage.id i) id0) (Storage.items (history s))) in
  (match fname with
   | Some fn => ignore (remove_file (join (screenshots_dir e s) fn))
   | None => ret tt
   end) ;;
  let '(removed, h') := Storage.remove (history s) id0 in
  put {| history := h'; location := location s |} ;;
  (if removed then save_history else ret tt) ;;
  ret removed.

(** [toggle_favorite]: the [bool] of the manager's toggle is dropped. *)
Definition toggle_favorite (id0 : string) : M unit :=
  s <- get ;;
  put {| history := snd (Storage.toggle_favorite (history s) id0); location := location s |} ;;
  save_history ;;
  ret tt.

(** [set_storage_location] *)
Definition set_storage_location (loc : StorageLocation) : M unit :=
  e <- ask ;;
  let new_dir :=
    match loc with
    | Custom p => p
    | Desktop => match env_desktop_dir e with Some d => d | None => "" end
    | Default =>
        join (join (match env_data_dir e with Some d => d | None => "/tmp" end)
                   "ScreenCapture") "Screenshots"
    end in
  create_dir_all new_dir ;;
  s <- get ;;
  put {| history := history s; location := loc |} ;;
  save_settings ;;
  ret tt.

End StorageCommands.

(** ** capture/content_provider.rs *)

(** Rust's [f as u32] for an [f64]: truncation toward zero, saturating to
    0..=u32::MAX, NaN to 0. *)
Definition f64_as_u32 (f : f64) : Z :=
  match f with
  | S754_zero _ => 0
  | S754_nan => 0
  | S754_infinity s => if s then 0 else 4294967295
  | S754_finite s m e =>
      let t := if Z.leb 0 e then Z.shiftl (Zpos m) e else Z.shiftr (Zpos m) (- e) in
      let v := if s then - t else t in
      Z.max 0 (Z.min 4294967295 v)
  end%Z.

(** [v as u32] for an [i32]. *)
Definition i32_as_u32 (v : Z) : Z := Z.modulo v 4294967296.

Module Windows.

(** One window dictionary of [CGWindowListCopyWindowInfo]: for each key,
    [None] when absent; numbers carry the result of [to_i32()] / [to_f64()]. *)
Record WindowDict := {
  k_layer : option (option Z);
  k_number : option (option Z);
  k_name : option string;
  k_owner : option string;
  k_bounds : option (option (option f64) * option (option f64));
}.

Record WindowInfo := {
  id : Z;
  title : string;
  app_name : string;
  width : Z;
  height : Z;
}.

(** [.to_f64().unwrap_or(0.0)] of a [find] on the bounds, [.unwrap_or(0.0)]. *)
Definition bound_value (v : option (option f64)) : f64 :=
  match v with
  | Some (Some f) => f
  | _ => S754_zero false
  end.

(** Body of the loop over the windows: [None] is a [continue]. *)
Definition window_of (dict : WindowDict) : option WindowInfo :=
  if match k_layer dict with Some (Some l) => negb (Z.eqb l 0) | _ => false end then None
  else
  match k_number dict with
  | None => None
  | Some num =>
    let window_id := i32_as_u32 (match num with Some v => v | None => 0%Z end) in
    match k_name dict with
    | None => None
    | Some title =>
      if String.eqb title "" then None
      else
      let app_name := match k_owner dict with Some s => s | None => "" end in
      if String.eqb app_name "ScreenCapture" then None
      else
      let '(width, height) :=
        match k_bounds dict with
        | Some (w, h) => (f64_as_u32 (bound_value w), f64_as_u32 (bound_value h))
        | None => (0%Z, 0%Z)
        end in
      if (width <? 50)%Z || (height <? 50)%Z then None
      else Some {| id := window_id; title := title; app_name := app_name;
                   width := width; height := height |}
    end
  end.

Fixpoint windows_loop (array : list WindowDict) : list WindowInfo :=
  match array with
  | [] => []
  | dict :: rest =>
      match window_of dict with
      | Some w => w :: windows_loop rest
      | None => windows_loop rest
      end
  end.

(** [get_windows] on macOS: [None] is a null window list. *)
Definition get_windows (cf : option (list WindowDict)) : result (list WindowInfo) CaptureError :=
  match cf with
  | None => Ok []
  | Some array => Ok (windows_loop array)
  end.

End Windows.

Module Displays.







End Displays.

(** * Theorems *)

Section RecordingTheorems.
Import Rec.

(** Claim C1: when the stored state is [Starting] or [Recording {..}],
    [start_recording] fails with [RecordingFailed] carrying the message
    "Recording already in progress", and the stored state is unchanged. *)
Theorem start_rejected_when_active :
  forall t c s,
    (s = Starting \/ exists e, s = Recording e) ->
    start_recording t c s = (Err (RecordingFailed "Recording already in progress"), s).
Proof.
  intros t c s [-> | [e ->]]; reflexivity.
Qed.

(** Claim C2: from a terminal state ([Completed], [Failed], [Cancelled]),
    [start_recording] is rejected, and no sequence of the commands of
    recording.rs (none of which resets to [Idle]) ever leaves that state,
    so no session begins there. *)
Theorem terminal_no_new_session :
  forall s cs,
    is_terminal s = true ->
    (forall t c, exists e, start_recording t c s = (Err e, s)) /\
    Forall (fun s' => s' = s /\ is_recording_or_starting s' = false) (trace cs s).
Proof.
  intros s cs Hs. split.
  - intros t c. unfold start_recording.
    destruct (is_recording_or_starting s); eexists; reflexivity.
  - assert (Hexec : forall c, exec c s = s).
    { intros []; simpl; unfold cancel_recording, stop_recording, start_recording;
        destruct s; try discriminate Hs; reflexivity. }
    assert (Hnr : is_recording_or_starting s = false) by (destruct s; try discriminate Hs; reflexivity).
    induction cs as [|c cs IH]; simpl; constructor.
    + rewrite Hexec. auto.
    + rewrite Hexec. exact IH.
Qed.

(** Claim C7: outside [Recording {..}], [stop_recording] and
    [cancel_recording] both fail with [RecordingNotActive]; in
    [Recording {..}], [cancel_recording] returns [Ok(())] and stores
    exactly [Cancelled]. *)
Theorem stop_cancel_not_active :
  (forall s, is_recording s = false ->
     fst (stop_recording s) = Err RecordingNotActive /\
     fst (cancel_recording s) = Err RecordingNotActive) /\
  (forall e, cancel_recording (Recording e) = (Ok tt, Cancelled)).
Proof.
  split.
  - intros s Hs. unfold stop_recording, cancel_recording. rewrite Hs. auto.
  - reflexivity.
Qed.

End RecordingTheorems.

Lemma start_rejected_when_active_witness :
  Rec.start_recording (Window 1) {| quality := High; fps := 60; include_cursor := true;
      show_mouse_clicks := true; include_microphone := false;
      include_system_audio := true; exclude_app_audio := true |} Rec.Starting
  = (Err (RecordingFailed "Recording already in progress"), Rec.Starting).
Proof. apply start_rejected_when_active. left. reflexivity. Defined.

Section StorageTheorems.
Import Storage.

Lemma filter_keep_all (id0 : string) (l : list CaptureItem) :
  ~ In id0 (map id l) ->
  filter (fun i => negb (String.eqb (id i) id0)) l = l.
Proof.
  induction l as [|i l IH]; simpl; intros Hn; [reflexivity|].
  destruct (String.eqb_spec (id i) id0) as [E|E].
  - exfalso. apply Hn. left. exact E.
  - simpl. f_equal. apply IH. intros H. apply Hn. right. exact H.
Qed.

Lemma filter_length_le {A} (f : A -> bool) (l : list A) :
  (List.length (filter f l) <= List.length l)%nat.
Proof.
  induction l as [|a l IH]; simpl; [lia|]. destruct (f a); simpl; lia.
Qed.

Lemma filter_length_lt_iff (id0 : string) (l : list CaptureItem) :
  (List.length (filter (fun i => negb (String.eqb (id i) id0)) l) < List.length l)%nat
  <-> exists i, In i l /\ id i = id0.
Proof.
  induction l as [|i l IH]; simpl.
  - split; [lia | intros [x [[] _]]].
  - destruct (String.eqb_spec (id i) id0) as [E|E]; simpl.
    + split; [intros _; exists i; auto|].
      intros _. pose proof (filter_length_le (fun i => negb (String.eqb (id i) id0)) l). lia.
    + split.
      * intros H. destruct (proj1 IH ltac:(lia)) as [x [Hx Ex]]. exists x. auto.
      * intros [x [[<- | Hx] Ex]]; [contradiction|].
        assert (H := proj2 IH (ex_intro _ x (conj Hx Ex))). lia.
Qed.

Lemma filter_is_drop_id (id0 : string) (l : list CaptureItem) :
  filter (fun i => negb (String.eqb (id i) id0)) l = drop_id id0 l.
Proof.
  induction l as [|i l IH]; simpl; [reflexivity|].
  destruct (String.eqb (id i) id0); simpl; congruence.
Qed.

(** Claim C9: if no item of [h] has the id of [item], then [add(item)]
    followed by [remove(item.id)] returns [true] and the history has the
    length it had before the [add]. *)
Theorem add_then_remove :
  forall h item,
    ~ In (id item) (map id (items h)) ->
    fst (remove (add h item) (id item)) = true /\
    List.length (items (snd (remove (add h item) (id item)))) = List.length (items h).
Proof.
  intros h item Hn. unfold remove, add; simpl.
  rewrite filter_app, filter_keep_all by exact Hn. simpl.
  rewrite String.eqb_refl. simpl. rewrite app_nil_r, length_app. simpl.
  split; [apply Nat.ltb_lt; lia | reflexivity].
Qed.

(** Claim C10: [remove(id)] deletes every item with that id (duplicates
    included), returns [true] exactly when at least one was present, and
    keeps every other item, in its original order. *)
Theorem remove_spec :
  forall h id0,
    let '(b, h') := remove h id0 in
    (b = true <-> exists i, In i (items h) /\ id i = id0) /\
    (forall i, In i (items h') <-> In i (items h) /\ id i <> id0) /\
    items h' = drop_id id0 (items h).
Proof.
  intros h id0. unfold remove; simpl. split; [|split].
  - rewrite Nat.ltb_lt. apply filter_length_lt_iff.
  - intros i. rewrite filter_In. rewrite negb_true_iff, String.eqb_neq. tauto.
  - apply filter_is_drop_id.
Qed.

End StorageTheorems.

Section FilenameTheorems.
Import Storage.

Lemma read_digit_digit (d : N) : (d < 10)%N -> read_digit (digit d) = Some d.
Proof.
  intros Hd. unfold read_digit, digit.
  rewrite N_ascii_embedding by lia.
  replace ((48 <=? 48 + d)%N && (48 + d <? 58)%N) with true.
  - f_equal. lia.
  - symmetry. apply andb_true_iff. split; [apply N.leb_le | apply N.ltb_lt]; lia.
Qed.

Lemma mod10_lt (n : N) : (n mod 10 < 10)%N.
Proof. apply N.mod_lt. discriminate. Qed.

Lemma two_digits (acc n : N) : (n < 100)%N ->
  ((acc * 10 + (n / 10) mod 10) * 10 + n mod 10 = acc * 100 + n)%N.
Proof.
  intros Hn.
  assert (Hq : (n / 10 < 10)%N) by (apply N.Div0.div_lt_upper_bound; lia).
  rewrite (N.mod_small (n / 10) 10) by exact Hq.
  pose proof (N.div_mod n 10 ltac:(discriminate)). lia.
Qed.

Lemma year_digits (y : Z) : (0 <= y <= 9999)%Z ->
  (Z.to_N (y / 100) * 100 + Z.to_N (y mod 100) = Z.to_N y)%N.
Proof.
  intros Hy.
  assert (H1 : (0 <= y / 100)%Z) by (apply Z.div_pos; lia).
  assert (H2 : (0 <= y mod 100 < 100)%Z) by (apply Z.mod_pos_bound; lia).
  apply N2Z.inj. rewrite N2Z.inj_add, N2Z.inj_mul, !Z2N.id by lia.
  pose proof (Z.div_mod y 100 ltac:(lia)). simpl. lia.
Qed.

(** Claim C8: [generate_filename] depends on the clock only through the
    local second it shows: two calls with the same type and extension in the
    same second give the same string; and for a well-formed clock reading
    with a year in 0..9999 the name is ["{Prefix} " ++ ts ++ "." ++ ext],
    where [ts] is 22 characters laid out as ["YYYY-MM-DD at HH.MM.SS"] whose
    fields read back as the year, month, day, hour, minute and second, and
    the prefix is Screenshot, Recording or GIF according to the type. *)
Theorem generate_filename_spec :
  (forall now1 now2 ct ext, same_second now1 now2 ->
     generate_filename now1 ct ext = generate_filename now2 ct ext) /\
  (forall now ct ext,
     valid_dt now = true -> (0 <= year now <= 9999)%Z ->
     exists ts,
       generate_filename now ct ext = prefix ct ++ " " ++ ts ++ "." ++ ext /\
       String.length ts = 22%nat /\
       parse_timestamp ts = Some (Z.to_N (year now), month now, day now, hour now,
                                  minute now, shown_second now)) /\
  (forall ct, prefix ct = match ct with
                          | Screenshot => "Screenshot" | Recording => "Recording"
                          | Gif => "GIF" end).
Proof.
  split; [|split].
  - intros now1 now2 ct ext (Hy & Hmo & Hd & Hh & Hmi & Hs).
    unfold generate_filename, format_timestamp. rewrite Hy, Hmo, Hd, Hh, Hmi, Hs.
    reflexivity.
  - intros now ct ext Hv Hy. exists (format_timestamp now). split; [reflexivity|].
    unfold valid_dt in Hv. rewrite !andb_true_iff, !N.leb_le, !N.ltb_lt in Hv.
    destruct Hv as [[[[[[[Hm1 Hm2] Hd1] Hd2] Hh] Hmi] Hs] Hns].
    assert (Hss : (shown_second now < 100)%N).
    { unfold shown_second.
      assert (nanosecond now / 1000000000 < 2)%N
        by (apply N.Div0.div_lt_upper_bound; lia). lia. }
    assert (Hif : ((0 <=? year now) && (year now <=? 9999))%Z = true)
      by (apply andb_true_iff; split; apply Z.leb_le; lia).
    assert (Hyh : (Z.to_N (year now / 100) < 100)%N).
    { assert (year now / 100 < 100)%Z by (apply Z.div_lt_upper_bound; lia).
      apply N2Z.inj_lt. rewrite Z2N.id; [simpl; lia|]. apply Z.div_pos; lia. }
    assert (Hyl : (Z.to_N (year now mod 100) < 100)%N).
    { assert (0 <= year now mod 100 < 100)%Z by (apply Z.mod_pos_bound; lia).
      apply N2Z.inj_lt. rewrite Z2N.id; [simpl; lia|lia]. }
    unfold format_timestamp, fmt_year. rewrite Hif. split; [reflexivity|].
    unfold write_two, parse_timestamp. cbn [read_digits append].
    repeat (rewrite ?read_digit_digit by apply mod10_lt;
            cbn [expect read_digits Ascii.eqb Bool.eqb]).
    rewrite !two_digits by lia.
    rewrite <- (year_digits (year now)) by exact Hy.
    repeat f_equal; lia.
  - intros []; reflexivity.
Qed.

End FilenameTheorems.

Section FlatMapFacts.
Context {A B : Type}.

Lemma flat_map_length_le (f : A -> list B) (k : nat) (l : list A) :
  (forall a, In a l -> List.length (f a) <= k) ->
  List.length (flat_map f l) <= k * List.length l.
Proof.
  induction l as [|a l IH]; simpl; intros H; [lia|].
  rewrite length_app.
  assert (Ha := H a (or_introl eq_refl)).
  assert (Hl := IH (fun b Hb => H b (or_intror Hb))). lia.
Qed.

Lemma flat_map_length_eq_iff (f : A -> list B) (k : nat) (l : list A) :
  (forall a, In a l -> List.length (f a) <= k) ->
  (List.length (flat_map f l) = k * List.length l <->
   forall a, In a l -> List.length (f a) = k).
Proof.
  induction l as [|a l IH]; simpl; intros H.
  - split; [intros _ b []|intros _; lia].
  - rewrite length_app.
    assert (Ha := H a (or_introl eq_refl)).
    assert (Hb : forall b, In b l -> List.length (f b) <= k) by (intros b Hb; apply H; auto).
    assert (Hl := flat_map_length_le f k l Hb).
    specialize (IH Hb).
    split.
    + intros E b [<- | Hin]; [lia|]. apply (proj1 IH); [lia | exact Hin].
    + intros Hall. rewrite (proj2 IH (fun b Hin => Hall b (or_intror Hin))).
      rewrite (Hall a (or_introl eq_refl)). lia.
Qed.

Lemma flat_map_skipn (f : A -> list B) (k : nat) (l : list A) (i : nat) :
  (forall a, In a l -> List.length (f a) = k) ->
  skipn (k * i) (flat_map f l) = flat_map f (skipn i l).
Proof.
  revert i. induction l as [|a l IH]; intros i H.
  - rewrite skipn_nil. simpl. now rewrite skipn_nil.
  - destruct i as [|i]; [now rewrite Nat.mul_0_r|].
    simpl. replace (k * S i) with (k * i + List.length (f a))
      by (rewrite (H a (or_introl eq_refl)); lia).
    rewrite <- skipn_skipn, skipn_app, Nat.sub_diag, skipn_all. simpl.
    apply IH. intros b Hb. apply H. right. exact Hb.
Qed.

Lemma skipn_cons_nth (l : list A) (i : nat) (d : A) :
  i < List.length l -> skipn i l = nth i l d :: skipn (S i) l.
Proof.
  revert i. induction l as [|a l IH]; simpl; intros i Hi; [lia|].
  destruct i as [|i]; [reflexivity|]. simpl. apply IH. lia.
Qed.

Lemma flat_map_length_lt_ex (f : A -> list B) (k : nat) (l : list A) :
  (forall a, In a l -> List.length (f a) <= k) ->
  List.length (flat_map f l) < k * List.length l ->
  exists a, In a l /\ List.length (f a) < k.
Proof.
  induction l as [|a l IH]; simpl; intros H Hlt; [lia|].
  rewrite length_app in Hlt.
  destruct (Nat.lt_ge_cases (List.length (f a)) k) as [Ha|Ha].
  - exists a. auto.
  - assert (Hb : forall b, In b l -> List.length (f b) <= k) by (intros b Hb; apply H; auto).
    assert (H' : List.length (flat_map f l) < k * List.length l).
    { assert (List.length (f a) <= k) by (apply H; auto). lia. }
    destruct (IH Hb H') as [b [Hb' Hlt']]. exists b. auto.
Qed.

End FlatMapFacts.

Section PixelFacts.
Import Shot.

Lemma in_range (a n : N) : In a (range n) <-> (a < n)%N.
Proof.
  unfold range. rewrite in_map_iff. split.
  - intros [k [<- Hk]]. apply in_seq in Hk. lia.
  - intros H. exists (N.to_nat a). split; [apply N2Nat.id | apply in_seq; lia].
Qed.

Lemma length_range (n : N) : List.length (range n) = N.to_nat n.
Proof. unfold range. now rewrite length_map, length_seq. Qed.

Lemma nth_range (n i : N) : (i < n)%N -> nth (N.to_nat i) (range n) 0%N = i.
Proof.
  intros H. unfold range. change 0%N with (N.of_nat 0).
  rewrite map_nth, seq_nth by lia. simpl. apply N2Nat.id.
Qed.

Lemma pixel_bytes_length (b : bool) (d : list Byte.byte) (o : N) :
  List.length (pixel_bytes b d o) = if (o + 3 <? len d)%N then 4 else 0.
Proof. unfold pixel_bytes. destruct (o + 3 <? len d)%N, b; reflexivity. Qed.

Lemma pixel_bytes_length_le (b : bool) (d : list Byte.byte) (o : N) :
  List.length (pixel_bytes b d o) <= 4.
Proof. rewrite pixel_bytes_length. destruct (o + 3 <? len d)%N; lia. Qed.

Lemma rgba_loop_eq (img : CGImageInfo) (d : list Byte.byte) :
  rgba_loop img d =
  flat_map (fun y => flat_map (fun x => pixel_bytes (is_bgra img) d (px_offset img x y))
                              (range (width img)))
           (range (height img)).
Proof. reflexivity. Qed.

Lemma row_length_le (img : CGImageInfo) (d : list Byte.byte) (y : N) :
  List.length (flat_map (fun x => pixel_bytes (is_bgra img) d (px_offset img x y))
                        (range (width img))) <= 4 * N.to_nat (width img).
Proof.
  rewrite <- length_range. apply flat_map_length_le.
  intros. apply pixel_bytes_length_le.
Qed.

Lemma row_full_iff (img : CGImageInfo) (d : list Byte.byte) (y : N) :
  List.length (flat_map (fun x => pixel_bytes (is_bgra img) d (px_offset img x y))
                        (range (width img))) = 4 * N.to_nat (width img) <->
  (forall x, (x < width img)%N -> (px_offset img x y + 3 < len d)%N).
Proof.
  rewrite <- length_range, flat_map_length_eq_iff
    by (intros; apply pixel_bytes_length_le).
  split.
  - intros H x Hx. specialize (H x (proj2 (in_range _ _) Hx)).
    rewrite pixel_bytes_length in H.
    destruct (px_offset img x y + 3 <? len d)%N eqn:E; [apply N.ltb_lt; exact E | lia].
  - intros H x Hx. rewrite pixel_bytes_length.
    apply in_range in Hx. apply H in Hx. apply N.ltb_lt in Hx. rewrite Hx. reflexivity.
Qed.

Lemma rgba_length_le (img : CGImageInfo) (d : list Byte.byte) :
  List.length (rgba_loop img d) <= 4 * N.to_nat (width img) * N.to_nat (height img).
Proof.
  rewrite rgba_loop_eq, <- (length_range (height img)). apply flat_map_length_le.
  intros. apply row_length_le.
Qed.

Lemma rgba_full_iff (img : CGImageInfo) (d : list Byte.byte) :
  List.length (rgba_loop img d) = 4 * N.to_nat (width img) * N.to_nat (height img) <->
  (forall x y, (x < width img)%N -> (y < height img)%N -> (px_offset img x y + 3 < len d)%N).
Proof.
  rewrite rgba_loop_eq, <- (length_range (height img)), flat_map_length_eq_iff
    by (intros; apply row_length_le).
  split.
  - intros H x y Hx Hy. apply (row_full_iff img d y); [|exact Hx].
    apply H, in_range, Hy.
  - intros H y Hy. apply row_full_iff. intros x Hx. apply H; [exact Hx|].
    apply in_range, Hy.
Qed.

Lemma normalize_cases (img : CGImageInfo) (d : list Byte.byte) :
  width img <> 0%N -> height img <> 0%N ->
  (width img < 4294967296)%N -> (height img < 4294967296)%N ->
  normalize img d =
  if (4 * width img * height img <? 18446744073709551616)%N &&
     (4 * width img * height img <=? len (rgba_loop img d))%N
  then Ok (rgba_loop img d) else Err (CaptureFailed "Pixel buffer size mismatch").
Proof.
  intros Hw Hh Hw' Hh'. unfold normalize.
  apply N.eqb_neq in Hw, Hh. rewrite Hw, Hh. simpl.
  unfold as_u32. rewrite !N.mod_small by assumption.
  unfold from_raw. destruct (_ && _); reflexivity.
Qed.

Lemma area_nat (w h : N) : N.of_nat (4 * N.to_nat w * N.to_nat h) = (4 * w * h)%N.
Proof. rewrite !Nat2N.inj_mul, !N2Nat.id. reflexivity. Qed.

Lemma rgba_short_ex (img : CGImageInfo) (d : list Byte.byte) :
  List.length (rgba_loop img d) < 4 * N.to_nat (width img) * N.to_nat (height img) ->
  some_pixel_out_of_range img d.
Proof.
  rewrite rgba_loop_eq, <- (length_range (height img)). intros H.
  apply flat_map_length_lt_ex in H; [|intros; apply row_length_le].
  destruct H as [y [Hy Hrow]]. rewrite <- length_range in Hrow.
  apply flat_map_length_lt_ex in Hrow; [|intros; apply pixel_bytes_length_le].
  destruct Hrow as [x [Hx Hpx]]. rewrite pixel_bytes_length in Hpx.
  exists x, y. apply in_range in Hx, Hy. split; [exact Hx|]. split; [exact Hy|].
  destruct (px_offset img x y + 3 <? len d)%N eqn:E; [lia|].
  apply N.ltb_ge in E. exact E.
Qed.

End PixelFacts.

Section PixelTheorems.
Import Shot.

Lemma normalize_empty (img : CGImageInfo) (d : list Byte.byte) :
  width img = 0%N \/ height img = 0%N ->
  normalize img d = Err (CaptureFailed "Empty image").
Proof.
  intros [E|E]; unfold normalize; rewrite E; simpl;
    [reflexivity | now rewrite orb_true_r].
Qed.

Lemma rgba_full_of_ge (img : CGImageInfo) (d : list Byte.byte) :
  (4 * width img * height img <= len (rgba_loop img d))%N ->
  forall x y, (x < width img)%N -> (y < height img)%N -> (px_offset img x y + 3 < len d)%N.
Proof.
  intros H. apply rgba_full_iff.
  pose proof (rgba_length_le img d) as Hle.
  rewrite <- area_nat in H. unfold len in H. lia.
Qed.

(** Claim C6: when the byte-order bits ([bitmap_info & 0x7000]) are
    [0x2000] (32-bit little endian), or the pixel is 32-bit with non-zero
    alpha bits ([bitmap_info & 0x1F]), each pixel's four output bytes are
    its source bytes 2, 1, 0, 3 (B and R swapped, alpha kept); otherwise
    they are its bytes 0, 1, 2, 3. Stated on a successful normalisation,
    the pixel [(x, y)] landing at offset [4 * (y * width + x)]. *)
Theorem normalize_channel_order :
  forall img d buf x y,
    (width img < 4294967296)%N -> (height img < 4294967296)%N ->
    normalize img d = Ok buf -> (x < width img)%N -> (y < height img)%N ->
    let o := px_offset img x y in
    firstn 4 (skipn (N.to_nat (4 * (y * width img + x))) buf) =
    if (Z.land (bitmap_info img) 28672 =? 8192)%Z ||
       ((bits_per_pixel img =? 32)%N && negb (Z.land (bitmap_info img) 31 =? 0)%Z)
    then [at_ d (o + 2); at_ d (o + 1); at_ d o; at_ d (o + 3)]
    else [at_ d o; at_ d (o + 1); at_ d (o + 2); at_ d (o + 3)].
Proof.
  intros img d buf x y Hw Hh Hn Hx Hy o.
  rewrite normalize_cases in Hn by lia.
  destruct (_ && _) eqn:C in Hn; [|discriminate]. injection Hn as <-.
  apply andb_true_iff in C as [_ C]. apply N.leb_le in C.
  assert (Hall := rgba_full_of_ge img d C).
  assert (Hpix : forall x' y', (x' < width img)%N -> (y' < height img)%N ->
            List.length (pixel_bytes (is_bgra img) d (px_offset img x' y')) = 4).
  { intros x' y' Hx' Hy'. rewrite pixel_bytes_length.
    replace (px_offset img x' y' + 3 <? len d)%N with true; [reflexivity|].
    symmetry. apply N.ltb_lt, Hall; assumption. }
  replace (N.to_nat (4 * (y * width img + x)))
    with (4 * N.to_nat x + (4 * N.to_nat (width img)) * N.to_nat y)
    by (rewrite !N2Nat.inj_mul, N2Nat.inj_add, N2Nat.inj_mul; lia).
  rewrite <- skipn_skipn, rgba_loop_eq.
  rewrite (flat_map_skipn _ (4 * N.to_nat (width img)))
    by (intros y' Hy'; apply in_range in Hy'; apply row_full_iff;
        intros x' Hx'; apply Hall; assumption).
  rewrite (skipn_cons_nth (range (height img)) (N.to_nat y) 0%N)
    by (rewrite length_range; lia).
  rewrite nth_range by exact Hy. cbn [flat_map].
  rewrite skipn_app.
  rewrite (flat_map_skipn _ 4)
    by (intros x' Hx'; apply in_range in Hx'; apply Hpix; assumption).
  rewrite (skipn_cons_nth (range (width img)) (N.to_nat x) 0%N)
    by (rewrite length_range; lia).
  rewrite nth_range by exact Hx. cbn [flat_map].
  rewrite <- app_assoc, firstn_app, (Hpix x y Hx Hy), Nat.sub_diag, firstn_O, app_nil_r.
  rewrite firstn_all2 by (rewrite (Hpix x y Hx Hy); lia).
  unfold pixel_bytes. fold o.
  replace (o + 3 <? len d)%N with true by (symmetry; apply N.ltb_lt, Hall; assumption).
  reflexivity.
Qed.

End PixelTheorems.

Section UsizePixelFacts.
Import Shot.

Lemma obind_assoc {A B C} (m : option A) (f : A -> option B) (g : B -> option C) :
  obind (obind m f) g = obind m (fun a => obind (f a) g).
Proof. destruct m; reflexivity. Qed.

Lemma usize_result_some (checks : bool) (v r : N) :
  usize_result checks v = Some r -> r = (v mod usize_limit)%N.
Proof.
  unfold usize_result. destruct (v <? usize_limit)%N eqn:E.
  - intros [= <-]. apply N.ltb_lt in E. symmetry. apply N.mod_small. exact E.
  - destruct checks; [discriminate|]. intros [= <-]. reflexivity.
Qed.

Lemma usize_result_exact (checks : bool) (v : N) :
  (v < usize_limit)%N -> usize_result checks v = Some v.
Proof. intros H. unfold usize_result. apply N.ltb_lt in H. rewrite H. reflexivity. Qed.

Lemma usize_result_overflow (v : N) :
  (usize_limit <= v)%N -> usize_result true v = None.
Proof. intros H. unfold usize_result. apply N.ltb_ge in H. rewrite H. reflexivity. Qed.

Lemma usize_result_true (v r : N) :
  usize_result true v = Some r -> r = v /\ (v < usize_limit)%N.
Proof.
  unfold usize_result. destruct (v <? usize_limit)%N eqn:E; [|discriminate].
  intros [= <-]. apply N.ltb_lt in E. auto.
Qed.

Lemma index_some (d : list Byte.byte) (i : N) (b : Byte.byte) :
  index d i = Some b -> (i < len d)%N.
Proof. unfold index. destruct (i <? len d)%N eqn:E; [|discriminate]. intros _. apply N.ltb_lt, E. Qed.

Lemma index_in (d : list Byte.byte) (i : N) : (i < len d)%N -> index d i = Some (at_ d i).
Proof. intros H. unfold index. apply N.ltb_lt in H. rewrite H. reflexivity. Qed.

Ltac split_options :=
  repeat (cbn [push_all]; unfold obind;
          first
          [ match goal with |- context [usize_add ?c ?a ?b] =>
              destruct (usize_add c a b) eqn:? end
          | match goal with |- context [index ?x ?y] => destruct (index x y) eqn:? end
          | match goal with |- context [push ?h ?v ?b] => destruct (push h v b) eqn:? end ]).

Lemma pixel_step_eq (checks : bool) (heap : N) (bgra : bool) (d : list Byte.byte)
    (o : N) (v : RVec) :
  pixel_step checks heap bgra d o v = obind (pixel_read checks bgra d o) (push_all heap v).
Proof.
  unfold pixel_step, pixel_read. destruct (usize_add checks o 3) as [o3|]; [|reflexivity].
  cbn [obind]. destruct (o3 <? len d)%N; [|reflexivity].
  destruct bgra; split_options; reflexivity.
Qed.


Lemma push_all_app (heap : N) (v : RVec) (a b : list Byte.byte) :
  push_all heap v (a ++ b) = obind (push_all heap v a) (fun v' => push_all heap v' b).
Proof.
  revert v. induction a as [|x a IH]; intros v; [reflexivity|].
  simpl. destruct (push heap v x); simpl; [apply IH|reflexivity].
Qed.

Lemma for_each_concat (heap : N) (l : list N) (body : N -> RVec -> option RVec)
    (f : N -> option (list Byte.byte)) :
  (forall i a, In i l -> body i a = obind (f i) (push_all heap a)) ->
  forall a, for_each l body a = obind (for_concat l f) (push_all heap a).
Proof.
  induction l as [|i l IH]; intros H a; [reflexivity|].
  simpl. rewrite H by (left; reflexivity).
  assert (IH' := IH (fun j b Hj => H j b (or_intror Hj))).
  destruct (f i) as [x|]; simpl; [|reflexivity].
  destruct (for_concat l f) as [y|] eqn:Ey; simpl.
  - rewrite push_all_app. destruct (push_all heap a x); simpl; [|reflexivity].
    rewrite IH'; rewrite ?Ey; reflexivity.
  - destruct (push_all heap a x); simpl; [|reflexivity].
    rewrite IH'; rewrite ?Ey; reflexivity.
Qed.

Lemma pixel_loop_eq (checks : bool) (heap : N) (img : CGImageInfo) (d : list Byte.byte)
    (v : RVec) :
  pixel_loop checks heap img d v = obind (rgba_reads checks img d) (push_all heap v).
Proof.
  unfold pixel_loop, rgba_reads. apply for_each_concat. intros y a _.
  destruct (usize_mul checks y (bytes_per_row img)) as [rs|]; [|reflexivity]. simpl.
  apply for_each_concat. intros x a' _. unfold pixel_val.
  destruct (usize_mul checks x (bits_per_pixel img / 8)) as [t|]; [|reflexivity]. simpl.
  destruct (usize_add checks rs t) as [o|]; [|reflexivity]. simpl.
  apply pixel_step_eq.
Qed.

Lemma len_app (a b : list Byte.byte) : len (a ++ b) = (len a + len b)%N.
Proof. unfold len. rewrite length_app, Nat2N.inj_add. reflexivity. Qed.

Lemma len_cons (x : Byte.byte) (a : list Byte.byte) : len (x :: a) = (1 + len a)%N.
Proof. unfold len. cbn [List.length]. rewrite Nat2N.inj_succ. lia. Qed.

Lemma push_some (heap : N) (v v' : RVec) (b : Byte.byte) :
  push heap v b = Some v' ->
  buf v' = (buf v ++ [b])%list /\
  ((len (buf v) <= cap v)%N -> (cap v <= isize_max)%N ->
   (len (buf v') <= cap v')%N /\ (cap v' <= isize_max)%N).
Proof.
  unfold push. set (c := N.max 8 (N.max (2 * cap v) (len (buf v) + 1))).
  assert (Hc : (len (buf v) + 1 <= c)%N).
  { unfold c. pose proof (N.le_max_r 8 (N.max (2 * cap v) (len (buf v) + 1))).
    pose proof (N.le_max_r (2 * cap v) (len (buf v) + 1)). lia. }
  clearbody c.
  destruct (len (buf v) <? cap v)%N eqn:E.
  - intros [= <-]. apply N.ltb_lt in E. cbn [buf cap]. rewrite len_app.
    split; [reflexivity|]. change (len [b]) with 1%N. lia.
  - destruct (isize_max <? c)%N eqn:E1; [discriminate|].
    destruct (heap <? c)%N; [discriminate|]. intros [= <-]. cbn [buf cap].
    apply N.ltb_ge in E1. split; [reflexivity|]. rewrite len_app.
    change (len [b]) with 1%N. lia.
Qed.

Lemma push_all_some (heap : N) (bs : list Byte.byte) (v v' : RVec) :
  push_all heap v bs = Some v' ->
  buf v' = (buf v ++ bs)%list /\
  ((len (buf v) <= cap v)%N -> (cap v <= isize_max)%N ->
   (len (buf v') <= cap v')%N /\ (cap v' <= isize_max)%N).
Proof.
  revert v. induction bs as [|b bs IH]; intros v.
  - intros [= <-]. rewrite app_nil_r. auto.
  - simpl. destruct (push heap v b) as [v1|] eqn:E; [|discriminate]. simpl.
    intros H. destruct (push_some heap v v1 b E) as [E1 I1].
    destruct (IH v1 H) as [E2 I2]. split.
    + rewrite E2, E1, <- app_assoc. reflexivity.
    + intros A B. destruct (I1 A B). auto.
Qed.

Lemma push_all_room (heap : N) (bs : list Byte.byte) (v : RVec) :
  (len (buf v) + len bs <= cap v)%N ->
  push_all heap v bs = Some {| cap := cap v; buf := (buf v ++ bs)%list |}.
Proof.
  revert v. induction bs as [|b bs IH]; intros v H.
  - simpl. rewrite app_nil_r. destruct v; reflexivity.
  - simpl. unfold push at 1. rewrite len_cons in H.
    replace (len (buf v) <? cap v)%N with true by (symmetry; apply N.ltb_lt; lia).
    simpl. rewrite IH by (simpl; rewrite len_app; change (len [b]) with 1%N; lia).
    simpl. rewrite <- app_assoc. reflexivity.
Qed.

Lemma for_concat_some {A} (l : list N) (f : N -> option (list A)) (bs : list A) :
  for_concat l f = Some bs ->
  bs = flat_map (fun i => oget (f i)) l /\ (forall i, In i l -> f i <> None).
Proof.
  revert bs. induction l as [|i l IH]; intros bs.
  - intros [= <-]. split; [reflexivity|]. intros _ [].
  - simpl. destruct (f i) as [a|] eqn:Ea; [|discriminate]. simpl.
    destruct (for_concat l f) as [b|]; [|discriminate]. simpl. intros [= <-].
    destruct (IH b eq_refl) as [-> Hb]. split; [reflexivity|].
    intros j [<-|Hj]; [congruence|]. apply Hb, Hj.
Qed.

Lemma for_concat_all {A} (l : list N) (f : N -> option (list A)) (g : N -> list A) :
  (forall i, In i l -> f i = Some (g i)) -> for_concat l f = Some (flat_map g l).
Proof.
  induction l as [|i l IH]; intros H; [reflexivity|].
  simpl. rewrite H by (left; reflexivity). simpl.
  rewrite IH by (intros j Hj; apply H; right; exact Hj). reflexivity.
Qed.

Lemma for_concat_none {A} (l : list N) (f : N -> option (list A)) (i : N) :
  In i l -> f i = None -> for_concat l f = None.
Proof.
  induction l as [|j l IH]; intros Hi Hf; [destruct Hi|].
  simpl. destruct Hi as [<-|Hi].
  - rewrite Hf. reflexivity.
  - destruct (f j); simpl; [|reflexivity]. rewrite IH by assumption. reflexivity.
Qed.

Lemma for_concat_none_ex {A} (l : list N) (f : N -> option (list A)) :
  for_concat l f = None -> exists i, In i l /\ f i = None.
Proof.
  induction l as [|i l IH]; [discriminate|].
  simpl. destruct (f i) as [a|] eqn:Ea; simpl.
  - destruct (for_concat l f) eqn:E; [discriminate|]. intros _.
    destruct (IH eq_refl) as [j [Hj Hf]]. exists j. auto.
  - intros _. exists i. auto.
Qed.


Lemma pixel_read_exact (checks bgra : bool) (d : list Byte.byte) (o : N) :
  (o + 3 < usize_limit)%N -> pixel_read checks bgra d o = Some (pixel_bytes bgra d o).
Proof.
  intros H. unfold pixel_read, pixel_bytes, usize_add.
  rewrite (usize_result_exact checks (o + 3)) by exact H. cbn [obind].
  destruct (o + 3 <? len d)%N eqn:E; [|reflexivity]. apply N.ltb_lt in E.
  rewrite !usize_result_exact by lia. cbn [obind].
  rewrite !index_in by lia. destruct bgra; reflexivity.
Qed.

Lemma pixel_read_overflow (bgra : bool) (d : list Byte.byte) (o : N) :
  (usize_limit <= o + 3)%N -> pixel_read true bgra d o = None.
Proof.
  intros H. unfold pixel_read, usize_add. rewrite usize_result_overflow by exact H.
  reflexivity.
Qed.

Lemma pixel_read_shape (checks bgra : bool) (d : list Byte.byte) (o : N) (g : list Byte.byte) :
  (len d <= isize_max)%N -> pixel_read checks bgra d o = Some g ->
  (g = [] /\ (len d <= o + 3)%N) \/ (List.length g = 4 /\ (o + 3 < len d)%N).
Proof.
  intros Hd. unfold pixel_read.
  destruct (usize_add checks o 3) as [o3|] eqn:E3; [|discriminate].
  apply usize_result_some in E3. cbn [obind].
  destruct (o3 <? len d)%N eqn:L.
  - apply N.ltb_lt in L. intros Hp. right. revert Hp.
    destruct bgra; split_options; try discriminate; intros [= <-];
      (split; [reflexivity|]);
      match goal with Hi : index d o = Some _ |- _ => apply index_some in Hi end;
      unfold usize_limit, isize_max in *;
      rewrite N.mod_small in E3 by lia; lia.
  - apply N.ltb_ge in L. intros [= <-]. left. split; [reflexivity|].
    pose proof (N.Div0.mod_le (o + 3) usize_limit). lia.
Qed.

Lemma pixel_val_shape (checks : bool) (img : CGImageInfo) (d : list Byte.byte)
    (x y rs : N) (g : list Byte.byte) :
  (len d <= isize_max)%N ->
  usize_mul checks y (bytes_per_row img) = Some rs ->
  pixel_val checks img d x rs = Some g ->
  (g = [] /\ (len d <= px_offset img x y + 3)%N) \/
  (List.length g = 4 /\ (px_offset img x y mod usize_limit + 3 < len d)%N).
Proof.
  intros Hd Hrs. unfold pixel_val.
  destruct (usize_mul checks x (bits_per_pixel img / 8)) as [t|] eqn:Et; [|discriminate].
  cbn [obind].
  destruct (usize_add checks rs t) as [o|] eqn:Eo; [|discriminate]. cbn [obind].
  apply usize_result_some in Hrs, Et, Eo.
  assert (Ho : o = (px_offset img x y mod usize_limit)%N).
  { rewrite Eo, Hrs, Et. unfold px_offset. symmetry. apply N.Div0.add_mod. }
  intros H. destruct (pixel_read_shape checks _ d o g Hd H) as [[-> L]|[L4 L]].
  - left. split; [reflexivity|].
    pose proof (N.Div0.mod_le (px_offset img x y) usize_limit). lia.
  - right. split; [exact L4|]. rewrite <- Ho. exact L.
Qed.


(** The bytes of row [y] of [rgba_reads], when it does not panic. *)
Lemma row_reads (checks : bool) (img : CGImageInfo) (d : list Byte.byte) (y : N) :
  (len d <= isize_max)%N ->
  obind (usize_mul checks y (bytes_per_row img))
    (fun rs => for_concat (range (width img)) (fun x => pixel_val checks img d x rs)) <> None ->
  let r := oget (obind (usize_mul checks y (bytes_per_row img))
    (fun rs => for_concat (range (width img)) (fun x => pixel_val checks img d x rs))) in
  List.length r <= 4 * N.to_nat (width img) /\
  (List.length r < 4 * N.to_nat (width img) ->
     exists x, (x < width img)%N /\ (len d <= px_offset img x y + 3)%N) /\
  (List.length r = 4 * N.to_nat (width img) ->
     forall x, (x < width img)%N -> (px_offset img x y mod usize_limit + 3 < len d)%N).
Proof.
  intros Hd Hne r. unfold r. clear r.
  destruct (usize_mul checks y (bytes_per_row img)) as [rs|] eqn:Hrs; [|contradiction].
  cbn [obind] in *.
  destruct (for_concat _ _) as [row|] eqn:Er; [|contradiction]. cbn [oget].
  apply for_concat_some in Er as [-> Hpx].
  assert (Hshape : forall x, In x (range (width img)) ->
    (oget (pixel_val checks img d x rs) = [] /\ (len d <= px_offset img x y + 3)%N) \/
    (List.length (oget (pixel_val checks img d x rs)) = 4 /\
     (px_offset img x y mod usize_limit + 3 < len d)%N)).
  { intros x Hx. specialize (Hpx x Hx).
    destruct (pixel_val checks img d x rs) as [g|] eqn:Eg; [|contradiction].
    exact (pixel_val_shape checks img d x y rs g Hd Hrs Eg). }
  assert (Hle : forall x, In x (range (width img)) ->
    List.length (oget (pixel_val checks img d x rs)) <= 4).
  { intros x Hx. destruct (Hshape x Hx) as [[-> _]|[-> _]]; simpl; lia. }
  rewrite <- (length_range (width img)). split; [|split].
  - apply flat_map_length_le. exact Hle.
  - intros Hlt. apply flat_map_length_lt_ex in Hlt; [|exact Hle].
    destruct Hlt as [x [Hx Hl]]. exists x. split; [apply in_range, Hx|].
    destruct (Hshape x Hx) as [[_ L]|[L4 _]]; [exact L|lia].
  - intros Heq x Hx. apply in_range in Hx as Hx'.
    rewrite flat_map_length_eq_iff in Heq by exact Hle.
    specialize (Heq x Hx').
    destruct (Hshape x Hx') as [[E _]|[_ L]]; [rewrite E in Heq; discriminate|exact L].
Qed.

Lemma rgba_reads_some (checks : bool) (img : CGImageInfo) (d bs : list Byte.byte) :
  (len d <= isize_max)%N -> rgba_reads checks img d = Some bs ->
  List.length bs <= 4 * N.to_nat (width img) * N.to_nat (height img) /\
  (List.length bs < 4 * N.to_nat (width img) * N.to_nat (height img) ->
     some_pixel_out_of_range img d) /\
  (List.length bs = 4 * N.to_nat (width img) * N.to_nat (height img) ->
     forall x y, (x < width img)%N -> (y < height img)%N ->
       (px_offset img x y mod usize_limit + 3 < len d)%N).
Proof.
  intros Hd H. unfold rgba_reads in H.
  apply for_concat_some in H as [-> Hrows].
  assert (Hr : forall y, In y (range (height img)) -> _)
    by (intros y Hy; exact (row_reads checks img d y Hd (Hrows y Hy))).
  cbv zeta in Hr.
  assert (Hle : forall y, In y (range (height img)) ->
    List.length (oget (obind (usize_mul checks y (bytes_per_row img))
      (fun rs => for_concat (range (width img)) (fun x => pixel_val checks img d x rs))))
    <= 4 * N.to_nat (width img))
    by (intros y Hy; apply (Hr y Hy)).
  rewrite <- (length_range (height img)). split; [|split].
  - apply flat_map_length_le. exact Hle.
  - intros Hlt. apply flat_map_length_lt_ex in Hlt; [|exact Hle].
    destruct Hlt as [y [Hy Hl]].
    destruct (proj1 (proj2 (Hr y Hy)) Hl) as [x [Hx L]].
    exists x, y. apply in_range in Hy. auto.
  - intros Heq x y Hx Hy. apply in_range in Hy as Hy'.
    rewrite flat_map_length_eq_iff in Heq by exact Hle.
    exact (proj2 (proj2 (Hr y Hy')) (Heq y Hy') x Hx).
Qed.


Lemma rgba_reads_exact (checks : bool) (img : CGImageInfo) (d : list Byte.byte) :
  width img <> 0%N ->
  (forall x y, (x < width img)%N -> (y < height img)%N ->
     (px_offset img x y + 3 < usize_limit)%N) ->
  rgba_reads checks img d = Some (rgba_loop img d).
Proof.
  intros Hw H. rewrite rgba_loop_eq. unfold rgba_reads. apply for_concat_all.
  intros y Hy. apply in_range in Hy.
  assert (H0 := H 0%N y ltac:(lia) Hy). unfold px_offset in H0.
  unfold usize_mul. rewrite (usize_result_exact checks (y * bytes_per_row img)) by lia.
  cbn [obind]. apply for_concat_all. intros x Hx. apply in_range in Hx.
  assert (Hxy := H x y Hx Hy). unfold px_offset in Hxy.
  unfold pixel_val, usize_mul, usize_add.
  rewrite (usize_result_exact checks (x * (bits_per_pixel img / 8))) by lia. cbn [obind].
  rewrite (usize_result_exact checks (y * bytes_per_row img + x * (bits_per_pixel img / 8)))
    by lia. cbn [obind].
  apply pixel_read_exact. exact Hxy.
Qed.

Lemma rgba_reads_overflow (img : CGImageInfo) (d : list Byte.byte) :
  offset_overflows img -> rgba_reads true img d = None.
Proof.
  intros (x & y & Hx & Hy & Ho). unfold rgba_reads.
  apply (for_concat_none _ _ y); [apply in_range, Hy|].
  unfold usize_mul. destruct (usize_result true (y * bytes_per_row img)) as [rs|] eqn:Ers;
    [|reflexivity].
  apply usize_result_true in Ers as [-> _]. cbn [obind].
  apply (for_concat_none _ _ x); [apply in_range, Hx|].
  unfold pixel_val, usize_mul, usize_add.
  destruct (usize_result true (x * (bits_per_pixel img / 8))) as [t|] eqn:Et; [|reflexivity].
  apply usize_result_true in Et as [-> _]. cbn [obind].
  destruct (usize_result true (y * bytes_per_row img + x * (bits_per_pixel img / 8)))
    as [o|] eqn:Eo; [|reflexivity].
  apply usize_result_true in Eo as [-> _]. cbn [obind].
  apply pixel_read_overflow. exact Ho.
Qed.

Lemma rgba_reads_true_none (img : CGImageInfo) (d : list Byte.byte) :
  width img <> 0%N -> rgba_reads true img d = None -> offset_overflows img.
Proof.
  intros Hw H. unfold rgba_reads in H.
  apply for_concat_none_ex in H as [y [Hy H]]. apply in_range in Hy.
  unfold usize_mul in H.
  destruct (usize_result true (y * bytes_per_row img)) as [rs|] eqn:Ers.
  2:{ exists 0%N, y. split; [lia|]. split; [exact Hy|]. unfold px_offset.
      destruct (N.lt_ge_cases (y * bytes_per_row img) usize_limit) as [L|L]; [|lia].
      rewrite usize_result_exact in Ers by exact L. discriminate. }
  apply usize_result_true in Ers as [-> Lrs]. cbn [obind] in H.
  apply for_concat_none_ex in H as [x [Hx H]]. apply in_range in Hx.
  exists x, y. split; [exact Hx|]. split; [exact Hy|]. unfold px_offset.
  unfold pixel_val, usize_mul, usize_add in H.
  destruct (N.lt_ge_cases (x * (bits_per_pixel img / 8)) usize_limit) as [Lt|Lt]; [|lia].
  rewrite usize_result_exact in H by exact Lt. cbn [obind] in H.
  destruct (N.lt_ge_cases (y * bytes_per_row img + x * (bits_per_pixel img / 8)) usize_limit)
    as [Lo|Lo]; [|lia].
  rewrite usize_result_exact in H by exact Lo. cbn [obind] in H.
  destruct (N.lt_ge_cases (y * bytes_per_row img + x * (bits_per_pixel img / 8) + 3)
    usize_limit) as [L3|L3]; [|exact L3].
  rewrite pixel_read_exact in H by exact L3. discriminate.
Qed.

(** Release builds: if every pixel's wrapped offset passes the check, no
    offset wrapped: rows step by [bytes_per_row < 2^64] and pixels by
    [bits_per_pixel / 8 < 2^61] from an in-range offset, so the first step
    out of the buffer cannot jump past [2^64]. *)
Lemma offsets_no_wrap (img : CGImageInfo) (d : list Byte.byte) :
  wf img d -> width img <> 0%N ->
  (forall x y, (x < width img)%N -> (y < height img)%N ->
     (px_offset img x y mod usize_limit + 3 < len d)%N) ->
  forall x y, (x < width img)%N -> (y < height img)%N -> (px_offset img x y + 3 < len d)%N.
Proof.
  intros (Hw & Hh & Hr & Hb & Hd) Hw0 H.
  unfold usize_limit, isize_max in *. unfold px_offset in *.
  pose proof (N.Div0.mul_div_le (bits_per_pixel img) 8) as Hbpp.
  set (bpp := (bits_per_pixel img / 8)%N) in *.
  set (L := len d) in *. set (bpr := bytes_per_row img) in *.
  (* the first column *)
  assert (Hcol : forall y, (y < height img)%N -> (y * bpr + 3 < L)%N).
  { induction y as [|y IH] using N.peano_ind; intros Hy.
    - specialize (H 0%N 0%N ltac:(lia) ltac:(lia)). rewrite N.mul_0_l, N.mul_0_l in H.
      rewrite N.Div0.mod_0_l in H. lia.
    - assert (H1 := H 0%N 1%N ltac:(lia) ltac:(lia)).
      rewrite N.mul_0_l, N.add_0_r, N.mul_1_l, N.mod_small in H1 by lia.
      specialize (IH ltac:(lia)).
      specialize (H 0%N (N.succ y) ltac:(lia) Hy).
      rewrite N.mul_0_l, N.add_0_r, N.mul_succ_l in *.
      rewrite N.mod_small in H by lia. exact H. }
  intros x y Hx Hy. revert Hx.
  induction x as [|x IH] using N.peano_ind; intros Hx.
  - rewrite N.mul_0_l, N.add_0_r. apply Hcol, Hy.
  - specialize (IH ltac:(lia)). specialize (H (N.succ x) y Hx Hy).
    rewrite N.mul_succ_l in *. rewrite N.mod_small in H by lia. exact H.
Qed.


Lemma encode_some_inv (checks : bool) (heap : N) (img : CGImageInfo) (d : list Byte.byte)
    (r : result (list Byte.byte) CaptureError) :
  width img <> 0%N -> height img <> 0%N ->
  encode_pixels checks heap img d = Some r ->
  exists wh n v0 bs,
    usize_mul checks (width img) (height img) = Some wh /\
    usize_mul checks wh 4 = Some n /\
    with_capacity heap n = Some v0 /\
    rgba_reads checks img d = Some bs /\
    (len bs <= isize_max)%N /\
    r = match from_raw (as_u32 (width img)) (as_u32 (height img)) bs with
        | Some (_, _, b) => Ok b
        | None => Err (CaptureFailed "Pixel buffer size mismatch")
        end.
Proof.
  intros Hw Hh. unfold encode_pixels. apply N.eqb_neq in Hw, Hh. rewrite Hw, Hh. cbn [orb].
  destruct (usize_mul checks (width img) (height img)) as [wh|] eqn:E1; [|discriminate].
  cbn [obind].
  destruct (usize_mul checks wh 4) as [n|] eqn:E2; [|discriminate]. cbn [obind].
  destruct (with_capacity heap n) as [v0|] eqn:E3; [|discriminate]. cbn [obind].
  rewrite pixel_loop_eq.
  destruct (rgba_reads checks img d) as [bs|] eqn:E4; [|discriminate]. cbn [obind].
  destruct (push_all heap v0 bs) as [v|] eqn:E5; [|discriminate]. cbn [obind].
  intros [= <-].
  assert (Hv0 : cap v0 = n /\ buf v0 = [] /\ (n <= isize_max)%N).
  { unfold with_capacity in E3. destruct (isize_max <? n)%N eqn:I1; [discriminate|].
    destruct (heap <? n)%N; [discriminate|]. injection E3 as <-.
    apply N.ltb_ge in I1. auto. }
  destruct Hv0 as (C0 & B0 & I0).
  apply push_all_some in E5 as [Eb Inv]. rewrite B0 in Eb, Inv. cbn [app] in Eb.
  rewrite C0 in Inv.
  destruct (Inv ltac:(change (len []) with 0%N; lia) I0) as [I1 I2].
  exists wh, n, v0, bs. rewrite <- Eb. repeat split; auto. lia.
Qed.

Lemma encode_run (checks : bool) (heap : N) (img : CGImageInfo) (d : list Byte.byte) :
  width img <> 0%N -> height img <> 0%N ->
  (4 * width img * height img <= isize_max)%N ->
  (4 * width img * height img <= heap)%N ->
  (forall x y, (x < width img)%N -> (y < height img)%N ->
     (px_offset img x y + 3 < usize_limit)%N) ->
  encode_pixels checks heap img d = Some (normalize img d).
Proof.
  intros Hw Hh Hi Hheap Ho. unfold encode_pixels, normalize.
  apply N.eqb_neq in Hw as Hw', Hh as Hh'. rewrite Hw', Hh'. cbn [orb].
  assert (E : (width img * height img * 4 = 4 * width img * height img)%N) by ring.
  assert (Hwh : (width img * height img <= 4 * width img * height img)%N) by lia.
  unfold usize_mul.
  rewrite (usize_result_exact checks (width img * height img))
    by (unfold usize_limit, isize_max in *; lia).
  cbn [obind].
  rewrite (usize_result_exact checks (width img * height img * 4))
    by (unfold usize_limit, isize_max in *; lia).
  cbn [obind]. rewrite E. unfold with_capacity.
  replace (isize_max <? 4 * width img * height img)%N with false
    by (symmetry; apply N.ltb_ge; exact Hi).
  replace (heap <? 4 * width img * height img)%N with false
    by (symmetry; apply N.ltb_ge; exact Hheap).
  cbn [obind]. rewrite pixel_loop_eq, rgba_reads_exact by assumption. cbn [obind].
  rewrite push_all_room.
  - reflexivity.
  - cbn [buf cap]. change (len []) with 0%N. pose proof (rgba_length_le img d) as L.
    rewrite <- area_nat. unfold len. lia.
Qed.

Lemma encode_ok_inv (checks : bool) (heap : N) (img : CGImageInfo) (d buf : list Byte.byte) :
  wf img d -> (width img < 4294967296)%N -> (height img < 4294967296)%N ->
  encode_pixels checks heap img d = Some (Ok buf) ->
  (forall x y, (x < width img)%N -> (y < height img)%N -> (px_offset img x y + 3 < len d)%N) /\
  normalize img d = Ok buf.
Proof.
  intros Hwf Hw32 Hh32 H.
  destruct (N.eq_dec (width img) 0) as [E|Hw].
  { unfold encode_pixels in H. rewrite E in H. discriminate. }
  destruct (N.eq_dec (height img) 0) as [E|Hh].
  { unfold encode_pixels in H. rewrite E, orb_true_r in H. discriminate. }
  destruct (encode_some_inv checks heap img d _ Hw Hh H)
    as (wh & n & v0 & bs & _ & _ & _ & Hr & Hbs & Hres).
  unfold from_raw, as_u32 in Hres. rewrite !N.mod_small in Hres by assumption.
  destruct (_ && _) eqn:C in Hres; [|discriminate]. injection Hres as ->.
  apply andb_true_iff in C as [C1 C2]. apply N.ltb_lt in C1. apply N.leb_le in C2.
  destruct Hwf as (Hw64 & Hh64 & Hr64 & Hb64 & Hd) eqn:Hwf'.
  destruct (rgba_reads_some checks img d bs Hd Hr) as [Hle [_ Heq]].
  assert (Hlen : List.length bs = 4 * N.to_nat (width img) * N.to_nat (height img)).
  { rewrite <- area_nat in C2. unfold len in C2. lia. }
  assert (Hall := offsets_no_wrap img d Hwf Hw (Heq Hlen)).
  rewrite rgba_reads_exact in Hr
    by (try exact Hw; intros x y Hx Hy; specialize (Hall x y Hx Hy);
        unfold usize_limit, isize_max in *; lia).
  injection Hr as <-. split; [exact Hall|].
  rewrite normalize_cases by assumption. apply N.ltb_lt in C1. apply N.leb_le in C2.
  rewrite C1, C2. reflexivity.
Qed.

Lemma encode_err_inv (checks : bool) (heap : N) (img : CGImageInfo) (d : list Byte.byte)
    (e : CaptureError) :
  (len d <= isize_max)%N ->
  encode_pixels checks heap img d = Some (Err e) ->
  (e = CaptureFailed "Empty image" /\ (width img = 0%N \/ height img = 0%N)) \/
  (e = CaptureFailed "Pixel buffer size mismatch" /\ width img <> 0%N /\ height img <> 0%N /\
   some_pixel_out_of_range img d).
Proof.
  intros Hd H.
  destruct (N.eq_dec (width img) 0) as [E|Hw].
  { unfold encode_pixels in H. rewrite E in H. injection H as <-. auto. }
  destruct (N.eq_dec (height img) 0) as [E|Hh].
  { unfold encode_pixels in H. rewrite E, orb_true_r in H. injection H as <-. auto. }
  destruct (encode_some_inv checks heap img d _ Hw Hh H)
    as (wh & n & v0 & bs & _ & _ & _ & Hr & Hbs & Hres).
  destruct (from_raw (as_u32 (width img)) (as_u32 (height img)) bs)
    as [[[? ?] ?]|] eqn:F; [discriminate|].
  injection Hres as <-. right. split; [reflexivity|]. split; [exact Hw|]. split; [exact Hh|].
  unfold from_raw in F. destruct (_ && _) eqn:C in F; [discriminate|].
  assert (Hw' : (as_u32 (width img) <= width img)%N) by apply N.Div0.mod_le.
  assert (Hh' : (as_u32 (height img) <= height img)%N) by apply N.Div0.mod_le.
  assert (Hm : (4 * as_u32 (width img) * as_u32 (height img) <= 4 * width img * height img)%N)
    by (apply N.mul_le_mono; [apply N.mul_le_mono_l|]; assumption).
  assert (Hlt : (len bs < 4 * width img * height img)%N).
  { apply andb_false_iff in C as [C|C].
    - apply N.ltb_ge in C. unfold isize_max in Hbs. lia.
    - apply N.leb_gt in C. lia. }
  destruct (rgba_reads_some checks img d bs Hd Hr) as [_ [Hoor _]].
  apply Hoor. rewrite <- area_nat in Hlt. unfold len in Hlt. lia.
Qed.


Lemma with_capacity_some (heap n : N) (v : RVec) :
  with_capacity heap n = Some v -> (n <= isize_max)%N /\ (n <= heap)%N.
Proof.
  unfold with_capacity. destruct (isize_max <? n)%N eqn:I1; [discriminate|].
  destruct (heap <? n)%N eqn:I2; [discriminate|]. intros _.
  apply N.ltb_ge in I1, I2. auto.
Qed.

(** In a debug build, a run that returns passed every check: the buffer
    fits, and no offset overflowed. *)
Lemma encode_true_some (heap : N) (img : CGImageInfo) (d : list Byte.byte)
    (r : result (list Byte.byte) CaptureError) :
  width img <> 0%N -> height img <> 0%N ->
  encode_pixels true heap img d = Some r ->
  (4 * width img * height img <= isize_max)%N /\ (4 * width img * height img <= heap)%N /\
  (forall x y, (x < width img)%N -> (y < height img)%N ->
     (px_offset img x y + 3 < usize_limit)%N).
Proof.
  intros Hw Hh H.
  destruct (encode_some_inv true heap img d r Hw Hh H)
    as (wh & n & v0 & bs & E1 & E2 & E3 & E4 & _ & _).
  apply usize_result_true in E1 as [-> _]. apply usize_result_true in E2 as [-> _].
  apply with_capacity_some in E3 as [I1 I2].
  assert (E : (width img * height img * 4 = 4 * width img * height img)%N) by ring.
  rewrite E in I1, I2. split; [exact I1|]. split; [exact I2|].
  intros x y Hx Hy.
  destruct (N.lt_ge_cases (px_offset img x y + 3) usize_limit) as [L|L]; [exact L|].
  rewrite rgba_reads_overflow in E4; [discriminate|]. exists x, y. auto.
Qed.

Lemma normalize_out_of_range (img : CGImageInfo) (d : list Byte.byte) :
  (width img < 4294967296)%N -> (height img < 4294967296)%N ->
  some_pixel_out_of_range img d ->
  normalize img d = Err (CaptureFailed "Pixel buffer size mismatch").
Proof.
  intros Hw Hh (x & y & Hx & Hy & Hout).
  rewrite normalize_cases by lia.
  replace (4 * width img * height img <=? len (rgba_loop img d))%N with false;
    [now rewrite andb_false_r|].
  symmetry. apply N.leb_gt.
  destruct (N.lt_ge_cases (len (rgba_loop img d)) (4 * width img * height img))
    as [Hlt|Hge]; [exact Hlt|].
  assert (Hin := rgba_full_of_ge img d Hge x y Hx Hy). lia.
Qed.

Lemma encode_out_of_range (checks : bool) (heap : N) (img : CGImageInfo) (d : list Byte.byte) :
  wf img d -> (width img < 4294967296)%N -> (height img < 4294967296)%N ->
  some_pixel_out_of_range img d ->
  encode_pixels checks heap img d = Some (Err (CaptureFailed "Pixel buffer size mismatch")) \/
  encode_pixels checks heap img d = None.
Proof.
  intros Hwf Hw Hh Hoor.
  destruct (encode_pixels checks heap img d) as [[buf|e]|] eqn:E.
  - exfalso. destruct (encode_ok_inv checks heap img d buf Hwf Hw Hh E) as [Hall _].
    destruct Hoor as (x & y & Hx & Hy & Ho). specialize (Hall x y Hx Hy). lia.
  - destruct Hwf as (_ & _ & _ & _ & Hd).
    destruct (encode_err_inv checks heap img d e Hd E) as [[_ [Z|Z]]|[-> _]];
      [destruct Hoor as (x & y & Hx & Hy & _); lia..|left; reflexivity].
  - right. reflexivity.
Qed.

End UsizePixelFacts.

Section PixelTheorems2.
Import Shot.


(** Claim C5 (amended): for [usize] metadata with dimensions below 2^32, in
    debug and release builds: a successful conversion yields exactly
    [width * height * 4] bytes; every error is a [CaptureFailed]; a run that
    does not panic or abort fails exactly when a dimension is zero or some
    pixel's range [y * row_stride + x * (bits_per_pixel / 8) .. + 3] leaves
    the byte view ([row_stride * height] is never compared with the view's
    length). In a debug build with both dimensions non-zero, the run panics
    or aborts exactly when [4 * width * height] exceeds [isize::MAX] or the
    allocator's limit, or some pixel's [px_offset + 3] overflows [usize]. *)
Theorem normalize_spec :
  forall checks heap img d,
    wf img d -> (width img < 4294967296)%N -> (height img < 4294967296)%N ->
    (forall buf, encode_pixels checks heap img d = Some (Ok buf) ->
       len buf = (4 * width img * height img)%N) /\
    (forall e, encode_pixels checks heap img d = Some (Err e) -> exists m, e = CaptureFailed m) /\
    (encode_pixels checks heap img d <> None ->
       ((exists e, encode_pixels checks heap img d = Some (Err e)) <->
        width img = 0%N \/ height img = 0%N \/ some_pixel_out_of_range img d)) /\
    (width img <> 0%N -> height img <> 0%N ->
       (encode_pixels true heap img d = None <->
        (isize_max < 4 * width img * height img)%N \/ (heap < 4 * width img * height img)%N \/
        offset_overflows img)).
Proof.
  intros checks heap img d Hwf Hw Hh.
  assert (Hd : (len d <= isize_max)%N) by apply Hwf.
  split; [|split; [|split]].
  - intros buf H. destruct (encode_ok_inv checks heap img d buf Hwf Hw Hh H) as [Hall Hn].
    assert (Hw0 : width img <> 0%N)
      by (intros E; unfold encode_pixels in H; rewrite E in H; discriminate).
    assert (Hh0 : height img <> 0%N)
      by (intros E; unfold encode_pixels in H; rewrite E, orb_true_r in H; discriminate).
    rewrite normalize_cases in Hn by assumption.
    destruct (_ && _) in Hn; [|discriminate]. injection Hn as <-.
    assert (L : List.length (rgba_loop img d) =
                4 * N.to_nat (width img) * N.to_nat (height img))
      by (apply rgba_full_iff; exact Hall).
    unfold len. rewrite L. apply area_nat.
  - intros e H. destruct (encode_err_inv checks heap img d e Hd H) as [[-> _]|[-> _]];
      eexists; reflexivity.
  - intros Hne. split.
    + intros [e H]. destruct (encode_err_inv checks heap img d e Hd H)
        as [[_ [Z|Z]]|(_ & _ & _ & Hoor)]; auto.
    + intros [Z|[Z|Hoor]].
      * exists (CaptureFailed "Empty image"). unfold encode_pixels. rewrite Z. reflexivity.
      * exists (CaptureFailed "Empty image"). unfold encode_pixels.
        rewrite Z, orb_true_r. reflexivity.
      * destruct (encode_out_of_range checks heap img d Hwf Hw Hh Hoor) as [E|E];
          [eexists; exact E|contradiction].
  - intros Hw0 Hh0. split.
    + intros HN.
      destruct (N.lt_ge_cases isize_max (4 * width img * height img)) as [A|A]; [left; exact A|].
      destruct (N.lt_ge_cases heap (4 * width img * height img)) as [B|B];
        [right; left; exact B|].
      right; right.
      destruct (rgba_reads true img d) as [bs|] eqn:R.
      * exfalso.
        assert (Hno : forall x y, (x < width img)%N -> (y < height img)%N ->
                  (px_offset img x y + 3 < usize_limit)%N).
        { intros x y Hx Hy.
          destruct (N.lt_ge_cases (px_offset img x y + 3) usize_limit) as [L|L]; [exact L|].
          rewrite rgba_reads_overflow in R; [discriminate|]. exists x, y. auto. }
        rewrite (encode_run true heap img d Hw0 Hh0 A B Hno) in HN. discriminate.
      * exact (rgba_reads_true_none img d Hw0 R).
    + intros Hc. destruct (encode_pixels true heap img d) as [r|] eqn:E; [|reflexivity].
      exfalso. destruct (encode_true_some heap img d r Hw0 Hh0 E) as (I1 & I2 & Hno).
      destruct Hc as [A|[B|(x & y & Hx & Hy & Ho)]]; [lia|lia|].
      specialize (Hno x y Hx Hy). lia.
Qed.

(** Whenever the conversion loop returns (it neither panics nor aborts), it
    returns what the unbounded-arithmetic [normalize] computes: in debug
    builds always, in release builds for dimensions below 2^32. *)
Theorem encode_pixels_normalize :
  forall checks heap img d r,
    wf img d ->
    ((width img < 4294967296)%N /\ (height img < 4294967296)%N) \/ checks = true ->
    encode_pixels checks heap img d = Some r -> normalize img d = r.
Proof.
  intros checks heap img d r Hwf Hdims H.
  destruct (N.eq_dec (width img) 0) as [E|Hw0].
  { rewrite normalize_empty by auto. unfold encode_pixels in H. rewrite E in H.
    injection H as <-. reflexivity. }
  destruct (N.eq_dec (height img) 0) as [E|Hh0].
  { rewrite normalize_empty by auto. unfold encode_pixels in H.
    rewrite E, orb_true_r in H. injection H as <-. reflexivity. }
  destruct Hdims as [[Hw Hh]| ->].
  - destruct r as [buf|e].
    + exact (proj2 (encode_ok_inv checks heap img d buf Hwf Hw Hh H)).
    + assert (Hd : (len d <= isize_max)%N) by apply Hwf.
      destruct (encode_err_inv checks heap img d e Hd H) as [[_ [Z|Z]]|(-> & _ & _ & Hoor)];
        [contradiction|contradiction|].
      apply normalize_out_of_range; assumption.
  - destruct (encode_true_some heap img d r Hw0 Hh0 H) as (I1 & I2 & Hno).
    rewrite (encode_run true heap img d Hw0 Hh0 I1 I2 Hno) in H.
    injection H as <-. reflexivity.
Qed.

End PixelTheorems2.


Section JpegTheorems.
Import Shot.

Lemma binary_round_aux_sign (prec emax : Z) (sx : bool) (mx ex : Z) (lx : location) :
  match binary_round_aux prec emax sx mx ex lx with
  | S754_zero s | S754_infinity s | S754_finite s _ _ => s = sx
  | S754_nan => True
  end.
Proof.
  unfold binary_round_aux.
  destruct (shr_fexp prec emax mx ex lx) as [m1 e1].
  destruct (shr_fexp prec emax (round_nearest_even (shr_m m1) (loc_of_shr_record m1)) e1
              loc_Exact) as [m2 e2].
  destruct (shr_m m2); [reflexivity| |exact I].
  destruct (e2 <=? emax - prec)%Z; reflexivity.
Qed.

Lemma f32_as_u8_range (f : f32) : (0 <= f32_as_u8 f <= 255)%Z.
Proof. destruct f as [s|s| |s m e]; simpl; try destruct s; lia. Qed.

Lemma f32_as_u8_neg (f : f32) :
  match f with
  | S754_zero s | S754_infinity s | S754_finite s _ _ => s = true
  | S754_nan => True
  end -> f32_as_u8 f = 0%Z.
Proof.
  destruct f as [s|s| |s m e]; simpl; intros Hs; try subst s; try reflexivity.
  assert (0 <= (if (0 <=? e)%Z then Z.shiftl (Z.pos m) e else Z.shiftr (Z.pos m) (- e)))%Z.
  { destruct (0 <=? e)%Z; [apply Z.shiftl_nonneg | apply Z.shiftr_nonneg]; lia. }
  lia.
Qed.

(** Claim C3 (amended): the integer quality given to the JPEG encoder is
    Rust's [(quality * 100.0) as u8]: the binary32 product [quality * 100]
    truncated toward zero and saturated to [0, 255]. No clamp to [0, 1]
    precedes it, so it always lies in 0..255 (not 0..100), and it is 0 for
    NaN and for every quality with the sign bit set. *)
Theorem jpeg_quality_spec :
  forall q,
    encoder_quality (Jpeg q) = Some (f32_as_u8 (f32_mul q f32_100)) /\
    (0 <= jpeg_quality q <= 255)%Z /\
    (match q with
     | S754_zero s | S754_infinity s | S754_finite s _ _ => s = true
     | S754_nan => True
     end -> jpeg_quality q = 0%Z).
Proof.
  intros q. split; [reflexivity|]. split; [apply f32_as_u8_range|].
  intros Hq. unfold jpeg_quality. apply f32_as_u8_neg.
  unfold f32_mul, f32_100.
  destruct q as [s|s| |s m e]; simpl; subst; try exact I; try reflexivity.
  apply (binary_round_aux_sign 24 128 (xorb true false)).
Qed.

End JpegTheorems.

(** * Counterexamples *)

(** Claim C3: [quality = 2.0] (binary32 [8388608 * 2^-22]) gives 200, outside
    0..100; and [quality = 0.29_f32] ([9730785 * 2^-25], within [0, 1]) gives
    29 where [clamp(q, 0, 1) * 100] truncated is 28 (binary32 rounding of the
    product). *)
Lemma jpeg_quality_counterexample :
  valid_binary 24 128 (S754_finite false 8388608 (-22)) = true /\
  Shot.encoder_quality (Jpeg (S754_finite false 8388608 (-22))) = Some 200%Z /\
  ~ (forall q, valid_binary 24 128 q = true ->
       forall v, Shot.encoder_quality (Jpeg q) = Some v -> (0 <= v <= 100)%Z) /\
  valid_binary 24 128 (S754_finite false 9730785 (-25)) = true /\
  Shot.jpeg_quality (S754_finite false 9730785 (-25)) = 29%Z /\
  (9730785 * 100 / 2 ^ 25 = 28)%Z.
Proof.
  split; [reflexivity|]. split; [reflexivity|]. split.
  - intros H. specialize (H (S754_finite false 8388608 (-22)) eq_refl 200%Z eq_refl). lia.
  - split; [reflexivity|]. split; reflexivity.
Qed.


(** Claim C5: a 1x2 image with 8-byte rows and a 12-byte view (shorter than
    [row_stride * height = 16]) is converted successfully; a 2x1 image with
    4-byte rows and a 4-byte view (not shorter than [4 * 1]) fails; a 1x2
    image with non-zero dimensions, a row stride of [2^64 - 3] and an 8-byte
    view neither succeeds nor fails: the run panics (debug: overflow of
    [px_offset + 3]; release: index out of bounds after the wrap). *)
Lemma normalize_counterexample :
  let img1 := {| Shot.width := 1; Shot.height := 2; Shot.bytes_per_row := 8;
                 Shot.bits_per_pixel := 32; Shot.bitmap_info := 8194 |} in
  let d1 := [Byte.x01; Byte.x02; Byte.x03; Byte.x04; Byte.x00; Byte.x00; Byte.x00;
             Byte.x00; Byte.x05; Byte.x06; Byte.x07; Byte.x08] in
  let img2 := {| Shot.width := 2; Shot.height := 1; Shot.bytes_per_row := 4;
                 Shot.bits_per_pixel := 32; Shot.bitmap_info := 0 |} in
  let d2 := [Byte.x01; Byte.x02; Byte.x03; Byte.x04] in
  let img3 := {| Shot.width := 1; Shot.height := 2;
                 Shot.bytes_per_row := 18446744073709551613;
                 Shot.bits_per_pixel := 32; Shot.bitmap_info := 0 |} in
  let d3 := repeat Byte.x00 8 in
  (Shot.len d1 < Shot.bytes_per_row img1 * Shot.height img1)%N /\
  Shot.encode_pixels true 64 img1 d1 =
    Some (Ok [Byte.x03; Byte.x02; Byte.x01; Byte.x04; Byte.x07; Byte.x06; Byte.x05; Byte.x08]) /\
  Shot.encode_pixels false 64 img1 d1 =
    Some (Ok [Byte.x03; Byte.x02; Byte.x01; Byte.x04; Byte.x07; Byte.x06; Byte.x05; Byte.x08]) /\
  (Shot.bytes_per_row img2 * Shot.height img2 <= Shot.len d2)%N /\
  Shot.encode_pixels true 64 img2 d2 = Some (Err (CaptureFailed "Pixel buffer size mismatch")) /\
  Shot.encode_pixels false 64 img2 d2 = Some (Err (CaptureFailed "Pixel buffer size mismatch")) /\
  Shot.encode_pixels true 64 img3 d3 = None /\
  Shot.encode_pixels false 64 img3 d3 = None.
Proof. vm_compute. repeat split; try reflexivity; discriminate. Qed.

(** * Witnesses *)

Lemma terminal_no_new_session_witness :
  Rec.is_terminal Rec.Completed = true /\
  Forall (fun s' => s' = Rec.Completed /\ Rec.is_recording_or_starting s' = false)
    (Rec.trace [Rec.CCancel; Rec.CStop; Rec.CGetState] Rec.Completed).
Proof.
  split; [reflexivity|].
  apply (proj2 (terminal_no_new_session Rec.Completed _ eq_refl)).
Defined.

Lemma stop_cancel_not_active_witness :
  Rec.is_recording Rec.Idle = false /\
  fst (Rec.stop_recording Rec.Idle) = Err RecordingNotActive /\
  fst (Rec.cancel_recording Rec.Idle) = Err RecordingNotActive.
Proof.
  split; [reflexivity|].
  apply (proj1 stop_cancel_not_active Rec.Idle). reflexivity.
Defined.

Lemma add_then_remove_witness :
  let item := {| Storage.id := "b"; Storage.capture_type := Storage.Screenshot;
                 Storage.filename := "Screenshot 2026-01-01 at 10.00.00.png";
                 Storage.created_at := "2026-01-01T10:00:00+00:00";
                 Storage.is_favorite := false |} in
  let h := Storage.add Storage.new_history
             {| Storage.id := "a"; Storage.capture_type := Storage.Gif;
                Storage.filename := "GIF 2026-01-01 at 09.00.00.gif";
                Storage.created_at := "2026-01-01T09:00:00+00:00";
                Storage.is_favorite := true |} in
  ~ In (Storage.id item) (map Storage.id (Storage.items h)) /\
  fst (Storage.remove (Storage.add h item) (Storage.id item)) = true /\
  List.length (Storage.items (snd (Storage.remove (Storage.add h item) (Storage.id item))))
    = List.length (Storage.items h).
Proof.
  intros item h.
  assert (Hn : ~ In (Storage.id item) (map Storage.id (Storage.items h))).
  { simpl. intros [H|[]]. discriminate H. }
  split; [exact Hn|]. apply (add_then_remove h item Hn).
Defined.

Lemma generate_filename_spec_witness :
  let now := {| Storage.year := 2026; Storage.month := 10; Storage.day := 15;
                Storage.hour := 14; Storage.minute := 3; Storage.second := 9;
                Storage.nanosecond := 250000000 |} in
  Storage.valid_dt now = true /\
  exists ts,
    Storage.generate_filename now Storage.Recording "mov" =
      Storage.prefix Storage.Recording ++ " " ++ ts ++ "." ++ "mov" /\
    String.length ts = 22%nat /\
    Storage.parse_timestamp ts = Some (2026%N, 10%N, 15%N, 14%N, 3%N, 9%N).
Proof.
  intros now. split; [reflexivity|].
  apply (proj1 (proj2 generate_filename_spec) now Storage.Recording "mov");
    [reflexivity | simpl; lia].
Defined.

Lemma jpeg_quality_spec_witness :
  Shot.jpeg_quality (S754_finite true 8388608 (-24)) = 0%Z.
Proof.
  apply (proj2 (proj2 (jpeg_quality_spec (S754_finite true 8388608 (-24))))).
  reflexivity.
Defined.


Lemma normalize_spec_witness :
  let img := {| Shot.width := 2; Shot.height := 2; Shot.bytes_per_row := 8;
                Shot.bits_per_pixel := 32; Shot.bitmap_info := 8194 |} in
  Shot.encode_pixels true 64 img (repeat Byte.xff 16) = Some (Ok (repeat Byte.xff 16)) /\
  Shot.len (repeat Byte.xff 16) = (4 * Shot.width img * Shot.height img)%N /\
  Shot.encode_pixels true 15 img (repeat Byte.xff 16) = None.
Proof.
  intros img.
  assert (Hwf : Shot.wf img (repeat Byte.xff 16)) by (vm_compute; repeat split; first [reflexivity | discriminate]).
  assert (Hok : Shot.encode_pixels true 64 img (repeat Byte.xff 16) =
                Some (Ok (repeat Byte.xff 16))) by (vm_compute; reflexivity).
  destruct (normalize_spec true 64 img (repeat Byte.xff 16) Hwf
              ltac:(vm_compute; reflexivity) ltac:(vm_compute; reflexivity))
    as (H1 & _ & _ & H4).
  split; [exact Hok|]. split; [exact (H1 _ Hok)|].
  destruct (normalize_spec true 15 img (repeat Byte.xff 16) Hwf
              ltac:(vm_compute; reflexivity) ltac:(vm_compute; reflexivity))
    as (_ & _ & _ & H4').
  apply (proj2 (H4' ltac:(discriminate) ltac:(discriminate))).
  right; left. vm_compute. reflexivity.
Defined.

Lemma encode_pixels_normalize_witness :
  let img := {| Shot.width := 1; Shot.height := 2; Shot.bytes_per_row := 8;
                Shot.bits_per_pixel := 32; Shot.bitmap_info := 8194 |} in
  let d := [Byte.x01; Byte.x02; Byte.x03; Byte.x04; Byte.x00; Byte.x00; Byte.x00;
            Byte.x00; Byte.x05; Byte.x06; Byte.x07; Byte.x08] in
  Shot.encode_pixels false 64 img d =
    Some (Ok [Byte.x03; Byte.x02; Byte.x01; Byte.x04; Byte.x07; Byte.x06; Byte.x05; Byte.x08]) /\
  Shot.normalize img d =
    Ok [Byte.x03; Byte.x02; Byte.x01; Byte.x04; Byte.x07; Byte.x06; Byte.x05; Byte.x08].
Proof.
  intros img d.
  assert (E : Shot.encode_pixels false 64 img d =
    Some (Ok [Byte.x03; Byte.x02; Byte.x01; Byte.x04; Byte.x07; Byte.x06; Byte.x05; Byte.x08]))
    by (vm_compute; reflexivity).
  split; [exact E|].
  apply (encode_pixels_normalize false 64 img d _); [| |exact E].
  - vm_compute; repeat split; first [reflexivity | discriminate].
  - left. vm_compute. split; reflexivity.
Defined.


Lemma normalize_channel_order_witness :
  let img := {| Shot.width := 1; Shot.height := 2; Shot.bytes_per_row := 8;
                Shot.bits_per_pixel := 32; Shot.bitmap_info := 8194 |} in
  let d := [Byte.x01; Byte.x02; Byte.x03; Byte.x04; Byte.x00; Byte.x00; Byte.x00;
            Byte.x00; Byte.x05; Byte.x06; Byte.x07; Byte.x08] in
  firstn 4 (skipn (N.to_nat (4 * (1 * 1 + 0))) 
    [Byte.x03; Byte.x02; Byte.x01; Byte.x04; Byte.x07; Byte.x06; Byte.x05; Byte.x08])
  = [Byte.x07; Byte.x06; Byte.x05; Byte.x08].
Proof.
  intros img d.
  exact (normalize_channel_order img d
           [Byte.x03; Byte.x02; Byte.x01; Byte.x04; Byte.x07; Byte.x06; Byte.x05; Byte.x08]
           0%N 1%N
           ltac:(vm_compute; reflexivity) ltac:(vm_compute; reflexivity)
           ltac:(vm_compute; reflexivity) ltac:(vm_compute; reflexivity)
           ltac:(vm_compute; reflexivity)).
Defined.

(** * Further properties of the storage, recording and capture code *)

Section ToggleFavoriteTheorems.
Import Storage.

Lemma toggle_first_found (l : list CaptureItem) (id0 : string) :
  match toggle_first l id0 with Some _ => true | None => false end =
  existsb (fun i => String.eqb (id i) id0) l.
Proof.
  induction l as [|i l IH]; simpl; [reflexivity|].
  destruct (String.eqb (id i) id0); simpl; [reflexivity|].
  destruct (toggle_first l id0); exact IH.
Qed.

Lemma toggle_first_app (id0 : string) (l1 l2 : list CaptureItem) (i : CaptureItem) :
  ~ In id0 (map id l1) -> id i = id0 ->
  toggle_first (l1 ++ i :: l2)%list id0 =
  Some (l1 ++ {| id := id i; capture_type := capture_type i; filename := filename i;
                 created_at := created_at i; is_favorite := negb (is_favorite i) |} :: l2)%list.
Proof.
  intros Hn Hi. induction l1 as [|j l1 IH]; simpl.
  - rewrite Hi, String.eqb_refl. reflexivity.
  - simpl in Hn. replace (String.eqb (id j) id0) with false
      by (symmetry; apply String.eqb_neq; intros E; apply Hn; left; exact E).
    rewrite IH by (intros H; apply Hn; right; exact H). reflexivity.
Qed.

Lemma toggle_first_twice (id0 : string) (l l' : list CaptureItem) :
  toggle_first l id0 = Some l' -> toggle_first l' id0 = Some l.
Proof.
  revert l'. induction l as [|i l IH]; intros l' H; simpl in H; [discriminate|].
  destruct (String.eqb (id i) id0) eqn:E.
  - injection H as <-. simpl. rewrite E, negb_involutive. destruct i; reflexivity.
  - destruct (toggle_first l id0) as [l0|] eqn:T; simpl in H; [|discriminate].
    injection H as <-. simpl. rewrite E, (IH l0 eq_refl). reflexivity.
Qed.

(** [CaptureHistory::toggle_favorite] reports whether some item carries the
    id; when none does, the history is left as it is. *)
Theorem toggle_favorite_reports_found :
  forall h id0,
    fst (toggle_favorite h id0) = existsb (fun i => String.eqb (id i) id0) (items h) /\
    (fst (toggle_favorite h id0) = false -> snd (toggle_favorite h id0) = h).
Proof.
  intros h id0. unfold toggle_favorite. rewrite <- toggle_first_found.
  destruct (toggle_first (items h) id0); simpl; split; auto; discriminate.
Qed.

(** [CaptureHistory::toggle_favorite] flips [is_favorite] of the first item
    with the id only: the items before it, the later items (even with the
    same id) and every other field stay as they are. *)
Theorem toggle_favorite_first_only :
  forall h id0 l1 i l2,
    items h = (l1 ++ i :: l2)%list -> ~ In id0 (map id l1) -> id i = id0 ->
    toggle_favorite h id0 =
    (true, {| items := (l1 ++ {| id := id i; capture_type := capture_type i;
                                filename := filename i; created_at := created_at i;
                                is_favorite := negb (is_favorite i) |} :: l2)%list |}).
Proof.
  intros h id0 l1 i l2 Hh Hn Hi. unfold toggle_favorite.
  rewrite Hh, toggle_first_app by assumption. reflexivity.
Qed.

(** Toggling the same id twice restores the history. *)
Theorem toggle_favorite_twice :
  forall h id0, snd (toggle_favorite (snd (toggle_favorite h id0)) id0) = h.
Proof.
  intros [l] id0. unfold toggle_favorite. simpl.
  destruct (toggle_first l id0) as [l'|] eqn:T; simpl.
  - rewrite (toggle_first_twice id0 l l' T). reflexivity.
  - rewrite T. reflexivity.
Qed.

End ToggleFavoriteTheorems.

Section RecordingMachineTheorems.
Import Rec.

Lemma exec_not_recording (c : Command) (s : RecordingSessionState) :
  is_recording s = false -> exec c s = s.
Proof.
  intros H. destruct c; simpl;
    unfold start_recording, stop_recording, cancel_recording; rewrite ?H; simpl;
    try destruct (is_recording_or_starting s); reflexivity.
Qed.

(** Outside [Recording {..}] (in particular from [Idle], the state
    [AppState::new] stores) no sequence of the recording commands ever
    changes the stored state. *)
Theorem recording_state_fixed_outside_recording :
  forall s cs, is_recording s = false -> Forall (fun s' => s' = s) (trace cs s).
Proof.
  intros s cs H. induction cs as [|c cs IH]; simpl; constructor;
    rewrite exec_not_recording by exact H; [reflexivity | exact IH].
Qed.

(** From [Recording {..}] the only states ever stored are that same state
    and [Cancelled]. *)
Theorem recording_reaches_only_cancelled :
  forall e cs,
    Forall (fun s' => s' = Recording e \/ s' = Cancelled) (trace cs (Recording e)).
Proof.
  intros e cs.
  assert (G : forall s, s = Recording e \/ s = Cancelled ->
            Forall (fun s' => s' = Recording e \/ s' = Cancelled) (trace cs s)).
  { induction cs as [|c cs IH]; intros s Hs; simpl; constructor.
    - destruct Hs as [-> | ->]; destruct c; simpl; auto.
    - apply IH. destruct Hs as [-> | ->]; destruct c; simpl; auto. }
  apply G. left. reflexivity.
Qed.

(** [start_recording] and [stop_recording] never succeed and never write the
    stored state, whatever it is. *)
Theorem start_stop_never_succeed :
  forall s t c,
    (exists er, start_recording t c s = (Err er, s)) /\
    (exists er, stop_recording s = (Err er, s)).
Proof.
  intros s t c. unfold start_recording, stop_recording.
  split; [destruct (is_recording_or_starting s) | destruct (negb (is_recording s))];
    eexists; reflexivity.
Qed.

End RecordingMachineTheorems.

Section FilenameInjectivity.
Import Storage.

Lemma format_timestamp_reads_back (now : LocalDateTime) :
  valid_dt now = true -> (0 <= year now <= 9999)%Z ->
  String.length (format_timestamp now) = 22%nat /\
  parse_timestamp (format_timestamp now) =
    Some (Z.to_N (year now), month now, day now, hour now, minute now, shown_second now).
Proof.
  intros Hv Hy.
  unfold valid_dt in Hv. rewrite !andb_true_iff, !N.leb_le, !N.ltb_lt in Hv.
  destruct Hv as [[[[[[[Hm1 Hm2] Hd1] Hd2] Hh] Hmi] Hs] Hns].
  assert (Hss : (shown_second now < 100)%N).
  { unfold shown_second.
    assert (nanosecond now / 1000000000 < 2)%N
      by (apply N.Div0.div_lt_upper_bound; lia). lia. }
  assert (Hif : ((0 <=? year now) && (year now <=? 9999))%Z = true)
    by (apply andb_true_iff; split; apply Z.leb_le; lia).
  assert (Hyh : (Z.to_N (year now / 100) < 100)%N).
  { assert (year now / 100 < 100)%Z by (apply Z.div_lt_upper_bound; lia).
    apply N2Z.inj_lt. rewrite Z2N.id; [simpl; lia|]. apply Z.div_pos; lia. }
  assert (Hyl : (Z.to_N (year now mod 100) < 100)%N).
  { assert (0 <= year now mod 100 < 100)%Z by (apply Z.mod_pos_bound; lia).
    apply N2Z.inj_lt. rewrite Z2N.id; [simpl; lia|lia]. }
  unfold format_timestamp, fmt_year. rewrite Hif. split; [reflexivity|].
  unfold write_two, parse_timestamp. cbn [read_digits append].
  repeat (rewrite ?read_digit_digit by apply mod10_lt;
          cbn [expect read_digits Ascii.eqb Bool.eqb]).
  rewrite !two_digits by lia.
  rewrite <- (year_digits (year now)) by exact Hy.
  repeat f_equal; lia.
Qed.

Lemma append_cancel_l (p s t : string) : p ++ s = p ++ t -> s = t.
Proof.
  induction p as [|c p IH]; simpl; intros H; [exact H|]. injection H as H. exact (IH H).
Qed.

Lemma append_same_length (s1 s2 t1 t2 : string) :
  String.length s1 = String.length s2 -> s1 ++ t1 = s2 ++ t2 -> s1 = s2 /\ t1 = t2.
Proof.
  revert s2. induction s1 as [|c s1 IH]; intros [|c' s2] Hl H; simpl in *;
    try discriminate; [auto|].
  injection Hl as Hl. injection H as -> H. destruct (IH s2 Hl H) as [-> ->]. auto.
Qed.

(** Names of different capture types never coincide, whatever the clock
    reading and extensions: the prefixes differ in their first letter. *)
Theorem generate_filename_type_distinct :
  forall now1 now2 ct1 ct2 ext1 ext2,
    ct1 <> ct2 -> generate_filename now1 ct1 ext1 <> generate_filename now2 ct2 ext2.
Proof.
  intros now1 now2 [] [] ext1 ext2 Hne; try (exfalso; apply Hne; reflexivity);
    unfold generate_filename; simpl; discriminate.
Qed.

(** For well-formed clock readings with a year in 0..9999, the name
    determines the capture type, the extension and the shown second: two
    calls give the same name only within the same second. *)
Theorem generate_filename_injective :
  forall now1 now2 ct1 ct2 ext1 ext2,
    valid_dt now1 = true -> valid_dt now2 = true ->
    (0 <= year now1 <= 9999)%Z -> (0 <= year now2 <= 9999)%Z ->
    generate_filename now1 ct1 ext1 = generate_filename now2 ct2 ext2 ->
    ct1 = ct2 /\ ext1 = ext2 /\ same_second now1 now2.
Proof.
  intros now1 now2 ct1 ct2 ext1 ext2 Hv1 Hv2 Hy1 Hy2 Heq.
  assert (Hct : ct1 = ct2).
  { destruct (ct1), (ct2); try reflexivity; exfalso;
      revert Heq; unfold generate_filename; simpl; discriminate. }
  subst ct2. split; [reflexivity|].
  destruct (format_timestamp_reads_back now1 Hv1 Hy1) as [L1 P1].
  destruct (format_timestamp_reads_back now2 Hv2 Hy2) as [L2 P2].
  unfold generate_filename in Heq.
  apply append_cancel_l in Heq. simpl in Heq. injection Heq as Heq.
  destruct (append_same_length _ _ _ _ (eq_trans L1 (eq_sym L2)) Heq) as [Ets Eext].
  injection Eext as Eext. split; [exact Eext|].
  rewrite Ets, P2 in P1. injection P1 as Ey Emo Ed Eh Emi Es.
  unfold same_second. repeat split; try congruence.
  apply Z2N.inj; lia.
Qed.

End FilenameInjectivity.

Section StorageCommandTheorems.
Import Storage StorageIO.

Ltac unfold_io :=
  cbv beta iota zeta delta [bind ret throw ask get put ignore attempt fs_call
    create_dir_all write remove_file save_history save_settings
    storage fs files dirs ticks history location] in *.

Ltac io_split :=
  repeat match goal with
  | H : context [match io_error ?e ?n ?op with _ => _ end] |- _ =>
      destruct (io_error e n op) eqn:?
  | |- context [match io_error ?e ?n ?op with _ => _ end] =>
      destruct (io_error e n op) eqn:?
  | H : context [if String.eqb ?p "" then _ else _] |- _ => destruct (String.eqb p "") eqn:?
  | |- context [if String.eqb ?p "" then _ else _] => destruct (String.eqb p "") eqn:?
  end.

(** The same, reducing after each case split (for calls whose outcome is
    only inspected later, as under [ignore] and [attempt]). *)
Ltac io_split_red :=
  repeat (match goal with
  | |- context [match io_error ?e ?n ?op with _ => _ end] =>
      destruct (io_error e n op) eqn:?
  | |- context [if String.eqb ?p "" then _ else _] => destruct (String.eqb p "") eqn:?
  end; cbv beta iota zeta delta [negb]).

Lemma lookup_put_file (p : string) (c : list Byte.byte) (l : list (string * list Byte.byte)) :
  lookup_file p (put_file p c l) = Some c.
Proof.
  unfold lookup_file. induction l as [|[q c'] l IH]; simpl.
  - rewrite String.eqb_refl. reflexivity.
  - destruct (String.eqb q p) eqn:E; simpl.
    + rewrite String.eqb_refl. reflexivity.
    + rewrite E. exact IH.
Qed.

(** [save_screenshot] returning [Ok(item)]: the item is a new, non-favourite
    screenshot named by [generate_filename] with the format's extension, it
    is appended to the history, the location is kept, and history.json holds
    the serialized in-memory history. *)
Theorem save_screenshot_ok :
  forall data format now uuid created e w item w',
    save_screenshot data format now uuid created e w = (Ok item, w') ->
    item = new_screenshot uuid created
             (generate_filename now Screenshot (format_extension format)) /\
    storage w' = {| history := add (history (storage w)) item;
                    location := location (storage w) |} /\
    lookup_file (join (data_dir e) "history.json") (files (fs w')) =
      Some (history_json e (history (storage w'))).
Proof.
  intros data format now uuid created e [[h loc] [fl dl tk]] item w' H.
  unfold save_screenshot in H. unfold_io. io_split; try discriminate.
  all: injection H as <- <-; simpl; split; [reflexivity|split; [reflexivity|]];
       apply lookup_put_file.
Qed.

(** [save_screenshot] when writing the image file fails: the command fails
    with an I/O error and the storage manager (history and location) is
    left as it was. *)
Theorem save_screenshot_write_fails :
  forall data format now uuid created e w,
    (forall n, io_error e n (WriteFile (join (screenshots_dir e (storage w))
                 (generate_filename now Screenshot (format_extension format)))) <> None) ->
    (exists msg, fst (save_screenshot data format now uuid created e w) = Err (Io msg)) /\
    storage (snd (save_screenshot data format now uuid created e w)) = storage w.
Proof.
  intros data format now uuid created e [[h loc] [fl dl tk]] Hw.
  unfold save_screenshot. unfold_io. io_split; simpl;
    try (exfalso; eapply Hw; eassumption); split; eauto.
Qed.

(** [save_screenshot] when only the write of history.json fails: the command
    reports the I/O error, yet the in-memory history already holds the new
    item (the image file was written). *)
Theorem save_screenshot_history_not_saved :
  forall data format now uuid created e w msg,
    (forall n p, io_error e n (CreateDirAll p) = None) ->
    (forall n, io_error e n (WriteFile (join (screenshots_dir e (storage w))
                 (generate_filename now Screenshot (format_extension format)))) = None) ->
    (forall n, io_error e n (WriteFile (join (data_dir e) "history.json")) = Some msg) ->
    fst (save_screenshot data format now uuid created e w) = Err (Io msg) /\
    storage (snd (save_screenshot data format now uuid created e w)) =
      {| history := add (history (storage w))
                      (new_screenshot uuid created
                         (generate_filename now Screenshot (format_extension format)));
         location := location (storage w) |}.
Proof.
  intros data format now uuid created e [[h loc] [fl dl tk]] msg Hc Hw Hh.
  unfold save_screenshot. unfold_io. io_split; simpl.
  all: try (match goal with E : io_error _ _ (CreateDirAll _) = Some _ |- _ =>
              rewrite Hc in E; discriminate end).
  all: try (match goal with E : io_error _ _ (WriteFile _) = None |- _ =>
              rewrite Hh in E; discriminate end).
  all: try (match goal with E : io_error _ _ (WriteFile _) = Some _ |- _ =>
              rewrite Hw in E; discriminate end).
  all: match goal with E : io_error _ _ (WriteFile _) = Some _ |- _ =>
         rewrite Hh in E; injection E as <- end; split; reflexivity.
Qed.

Lemma find_absent (id0 : string) (l : list CaptureItem) :
  ~ In id0 (map id l) -> find (fun i => String.eqb (id i) id0) l = None.
Proof.
  induction l as [|i l IH]; simpl; intros Hn; [reflexivity|].
  destruct (String.eqb_spec (id i) id0) as [E|E].
  - exfalso. apply Hn. left. exact E.
  - apply IH. intros H. apply Hn. right. exact H.
Qed.

Lemma find_present (id0 : string) (l : list CaptureItem) :
  In id0 (map id l) -> exists i, find (fun i => String.eqb (id i) id0) l = Some i.
Proof.
  induction l as [|i l IH]; simpl; intros Hn; [contradiction|].
  destruct (String.eqb (id i) id0) eqn:E0; [eauto|].
  destruct Hn as [E|Hn]; [|apply IH; exact Hn].
  rewrite E, String.eqb_refl in E0. discriminate.
Qed.

(** [delete_capture] of an id no item carries returns [Ok(false)] and makes
    no change at all: no file is removed, nothing is saved. *)
Theorem delete_capture_absent :
  forall id0 e w,
    ~ In id0 (map id (items (history (storage w)))) ->
    StorageCommands.delete_capture id0 e w = (Ok false, w).
Proof.
  intros id0 e [[[l] loc] f] Hn. simpl in Hn.
  unfold StorageCommands.delete_capture, Storage.remove. unfold_io. simpl.
  rewrite (find_absent id0 l Hn). simpl.
  rewrite (filter_keep_all id0 l Hn), Nat.ltb_irrefl. reflexivity.
Qed.

(** [delete_capture] of an id some item carries removes every such item from
    the history (even when the save then fails) and returns [Ok(true)] or an
    I/O error of the save; a failure to remove the file is ignored: when
    only removals fail, the result is [Ok(true)]. *)
Theorem delete_capture_present :
  forall id0 e w,
    In id0 (map id (items (history (storage w)))) ->
    storage (snd (StorageCommands.delete_capture id0 e w)) =
      {| history := snd (remove (history (storage w)) id0);
         location := location (storage w) |} /\
    (fst (StorageCommands.delete_capture id0 e w) = Ok true \/
     exists msg, fst (StorageCommands.delete_capture id0 e w) = Err (Io msg)) /\
    ((forall n p, io_error e n (CreateDirAll p) = None) ->
     (forall n p, io_error e n (WriteFile p) = None) ->
     fst (StorageCommands.delete_capture id0 e w) = Ok true).
Proof.
  intros id0 e [[[l] loc] [fl dl tk]] Hn. simpl in Hn.
  destruct (find_present id0 l Hn) as [i Hi].
  assert (Hlt : Nat.ltb (List.length (filter (fun i => negb (String.eqb (id i) id0)) l))
                        (List.length l) = true).
  { apply Nat.ltb_lt, filter_length_lt_iff. apply in_map_iff in Hn.
    destruct Hn as [x [Ex Hx]]. exists x. auto. }
  unfold StorageCommands.delete_capture, Storage.remove. unfold_io. simpl.
  rewrite Hi. simpl. rewrite Hlt. io_split; simpl.
  all: split; [reflexivity|split; [eauto|]].
  all: intros Hc Hw; try reflexivity.
  all: match goal with
       | E : io_error _ _ (CreateDirAll _) = Some _ |- _ => rewrite Hc in E; discriminate
       | E : io_error _ _ (WriteFile _) = Some _ |- _ => rewrite Hw in E; discriminate
       end.
Qed.

Lemma join_nonempty (b p : string) : p <> "" -> join b p <> "".
Proof.
  intros Hp. unfold join. destruct (is_absolute p); [exact Hp|].
  destruct (String.eqb b "" || ends_with_sep b);
    destruct b; simpl; try discriminate; exact Hp.
Qed.

Lemma data_dir_nonempty (e : Env) : String.eqb (data_dir e) "" = false.
Proof. apply String.eqb_neq, join_nonempty. discriminate. Qed.

(** The [toggle_favorite] command toggles in memory and always saves the
    history, whether or not some item carries the id: it makes at least one
    file system call, and when it returns [Ok(())] history.json holds the
    serialized new history. *)
Theorem toggle_favorite_command_saves :
  forall id0 e w,
    storage (snd (StorageCommands.toggle_favorite id0 e w)) =
      {| history := snd (toggle_favorite (history (storage w)) id0);
         location := location (storage w) |} /\
    (ticks (fs w) < ticks (fs (snd (StorageCommands.toggle_favorite id0 e w))))%nat /\
    (fst (StorageCommands.toggle_favorite id0 e w) = Ok tt ->
     lookup_file (join (data_dir e) "history.json")
       (files (fs (snd (StorageCommands.toggle_favorite id0 e w)))) =
     Some (history_json e (snd (toggle_favorite (history (storage w)) id0)))).
Proof.
  intros id0 e [[h loc] [fl dl tk]].
  unfold StorageCommands.toggle_favorite. unfold_io. rewrite data_dir_nonempty.
  io_split; simpl; (split; [reflexivity|split; [lia|]]); intros H;
    try discriminate; apply lookup_put_file.
Qed.

(** [set_storage_location] either fails with an I/O error leaving the
    storage manager unchanged (the new directory could not be created), or
    switches the location, keeping the history, after creating the directory
    that [screenshots_dir] then returns (the empty path needs no creation);
    on [Ok(())] settings.json holds the new location. *)
Theorem set_storage_location_spec :
  forall loc e w,
    ((storage (snd (StorageCommands.set_storage_location loc e w)) = storage w /\
      exists msg, fst (StorageCommands.set_storage_location loc e w) = Err (Io msg)) \/
     (storage (snd (StorageCommands.set_storage_location loc e w)) =
        {| history := history (storage w); location := loc |} /\
      (screenshots_dir e (storage (snd (StorageCommands.set_storage_location loc e w))) = "" \/
       In (screenshots_dir e (storage (snd (StorageCommands.set_storage_location loc e w))))
          (dirs (fs (snd (StorageCommands.set_storage_location loc e w))))))) /\
    (fst (StorageCommands.set_storage_location loc e w) = Ok tt ->
     lookup_file (join (data_dir e) "settings.json")
       (files (fs (snd (StorageCommands.set_storage_location loc e w)))) =
     Some (settings_json e loc)).
Proof.
  intros loc e [[h loc0] [fl dl tk]].
  assert (Hnd : forall h', screenshots_dir e {| history := h'; location := loc |} =
     match loc with
     | Custom p => p
     | Desktop => match env_desktop_dir e with Some d => d | None => "" end
     | Default => join (join (match env_data_dir e with Some d => d | None => "/tmp" end)
                             "ScreenCapture") "Screenshots"
     end) by (intros; destruct loc; reflexivity).
  unfold StorageCommands.set_storage_location. unfold_io.
  rewrite data_dir_nonempty. rewrite <- (Hnd h).
  io_split; simpl.
  all: try (split; [left; split; [reflexivity|eexists; reflexivity]|intros; discriminate]).
  all: split; [right; split; [reflexivity|]|].
  all: try (intros _; apply lookup_put_file).
  all: try (intros; discriminate).
  all: match goal with
       | E : String.eqb _ "" = true |- _ => left; apply String.eqb_eq; exact E
       | _ => right; simpl; auto
       end.
Qed.

(** With the Desktop location and no desktop directory known,
    [screenshots_dir] is the empty path: no directory is created and a
    screenshot is written under its bare file name, relative to the
    process's working directory. *)
Theorem desktop_without_dir_relative :
  forall e s,
    location s = Desktop -> env_desktop_dir e = None ->
    (forall fname, join (screenshots_dir e s) fname = fname) /\
    (forall w, create_dir_all (screenshots_dir e s) e w = (Ok tt, w)).
Proof.
  intros e s Hl Hd. unfold screenshots_dir. rewrite Hl, Hd. split.
  - intros fname. unfold join. destruct (is_absolute fname); reflexivity.
  - intros w. reflexivity.
Qed.

Lemma storage_fold (l : list (option N)) (c sz : N) :
  fold_left (fun '(c, sz) entry =>
               (wrap64 (c + 1), wrap64 (sz + match entry with
                                              | Some m => m
                                              | None => 0 end)))%N
            l (wrap64 c, wrap64 sz) =
  (wrap64 (c + N.of_nat (List.length l)),
   wrap64 (sz + fold_right N.add 0 (map (fun m => match m with Some n => n | None => 0 end) l)))%N.
Proof.
  revert c sz. induction l as [|m l IH]; intros c sz; simpl.
  - rewrite !N.add_0_r. reflexivity.
  - assert (W : forall a b, wrap64 (wrap64 a + b) = wrap64 (a + b))
      by (intros; apply N.Div0.add_mod_idemp_l).
    rewrite !W, IH. f_equal; f_equal; lia.
Qed.

(** [compute_storage_info] reports the screenshots directory and the
    location; a missing or unreadable directory counts as empty; otherwise
    [total_items] counts the readable entries and [total_size_bytes] sums
    their lengths, an entry whose metadata cannot be read counting 0 (both
    wrapping at 2^64). *)
Theorem compute_storage_info_spec :
  forall e s ex entries,
    path (compute_storage_info e s ex entries) = screenshots_dir e s /\
    info_location (compute_storage_info e s ex entries) = location s /\
    ((ex = false \/ entries = None) ->
     total_items (compute_storage_info e s ex entries) = 0%N /\
     total_size_bytes (compute_storage_info e s ex entries) = 0%N) /\
    (forall l, ex = true -> entries = Some l ->
     total_items (compute_storage_info e s ex entries) =
       wrap64 (N.of_nat (List.length (filter_ok l))) /\
     total_size_bytes (compute_storage_info e s ex entries) =
       wrap64 (fold_right N.add 0%N
                 (map (fun m => match m with Some n => n | None => 0%N end) (filter_ok l)))).
Proof.
  intros e s ex entries. unfold compute_storage_info.
  split; [|split; [|split]].
  - destruct ex; [destruct entries|]; try reflexivity.
    destruct (fold_left _ _ _); reflexivity.
  - destruct ex; [destruct entries|]; try reflexivity.
    destruct (fold_left _ _ _); reflexivity.
  - intros [-> | ->]; [|destruct ex]; split; reflexivity.
  - intros l -> ->. change (0%N, 0%N) with (wrap64 0, wrap64 0).
    rewrite storage_fold. split; reflexivity.
Qed.

(** The tray capture never reports an error: after a successful capture it
    either emits nothing and leaves the storage manager as it was, or
    appends and emits the new item. Failures to create the directory or to
    save the history are ignored: whenever the image write succeeds, the
    item is added; when the image cannot be written, nothing is emitted and
    the storage manager is unchanged. *)
Theorem tray_capture_spec :
  forall data now uuid created e w,
    let item := new_screenshot uuid created (generate_filename now Screenshot "png") in
    ((fst (do_tray_capture_fullscreen (Ok data) now uuid created e w) = Ok None /\
      storage (snd (do_tray_capture_fullscreen (Ok data) now uuid created e w)) = storage w) \/
     (fst (do_tray_capture_fullscreen (Ok data) now uuid created e w) = Ok (Some item) /\
      storage (snd (do_tray_capture_fullscreen (Ok data) now uuid created e w)) =
        {| history := add (history (storage w)) item; location := location (storage w) |})) /\
    ((forall n, io_error e n (WriteFile (join (screenshots_dir e (storage w))
                   (generate_filename now Screenshot "png"))) = None) ->
     fst (do_tray_capture_fullscreen (Ok data) now uuid created e w) = Ok (Some item)) /\
    ((forall n, io_error e n (WriteFile (join (screenshots_dir e (storage w))
                   (generate_filename now Screenshot "png"))) <> None) ->
     fst (do_tray_capture_fullscreen (Ok data) now uuid created e w) = Ok None /\
     storage (snd (do_tray_capture_fullscreen (Ok data) now uuid created e w)) = storage w).
Proof.
  intros data now uuid created e [[h loc] [fl dl tk]] item.
  unfold do_tray_capture_fullscreen. unfold_io. io_split_red; simpl.
  all: match goal with
       | E : io_error _ _ (WriteFile _) = Some _ |- _ =>
           split; [left; split; reflexivity|];
           split; [intros Hw; rewrite Hw in E; discriminate|];
           intros _; split; reflexivity
       | E : io_error _ _ (WriteFile _) = None |- _ =>
           split; [right; split; reflexivity|];
           split; [intros _; reflexivity|];
           intros Hw; exfalso; exact (Hw _ E)
       end.
Qed.

End StorageCommandTheorems.

Section ContentProviderTheorems.

Lemma f64_as_u32_range (f : f64) : (0 <= f64_as_u32 f <= 4294967295)%Z.
Proof.
  unfold f64_as_u32. destruct f as [s|s| |s m e]; [lia|destruct s; lia|lia|lia].
Qed.

Lemma window_of_kept (dict : Windows.WindowDict) (w : Windows.WindowInfo) :
  Windows.window_of dict = Some w ->
  (50 <= Windows.width w <= 4294967295)%Z /\ (50 <= Windows.height w <= 4294967295)%Z /\
  Windows.title w <> "" /\ Windows.app_name w <> "ScreenCapture" /\
  (0 <= Windows.id w < 4294967296)%Z.
Proof.
  unfold Windows.window_of.
  destruct (match Windows.k_layer dict with Some (Some l) => negb (l =? 0)%Z | _ => false end);
    [discriminate|].
  destruct (Windows.k_number dict) as [num|]; [|discriminate].
  destruct (Windows.k_name dict) as [t|]; [|discriminate].
  destruct (String.eqb t "") eqn:Et; [discriminate|].
  destruct (String.eqb (match Windows.k_owner dict with Some s => s | None => "" end)
              "ScreenCapture") eqn:Ea; [discriminate|].
  destruct (match Windows.k_bounds dict with
            | Some (w, h) => (f64_as_u32 (Windows.bound_value w),
                              f64_as_u32 (Windows.bound_value h))
            | None => (0%Z, 0%Z) end) as [wd ht] eqn:Eb.
  assert (Hr : (0 <= wd <= 4294967295)%Z /\ (0 <= ht <= 4294967295)%Z).
  { destruct (Windows.k_bounds dict) as [[a b]|]; injection Eb as <- <-;
      [split; apply f64_as_u32_range | lia]. }
  destruct ((wd <? 50)%Z || (ht <? 50)%Z) eqn:Es; [discriminate|].
  apply orb_false_iff in Es as [Ew Eh]. apply Z.ltb_ge in Ew, Eh.
  intros H. injection H as <-. simpl.
  split; [lia|split; [lia|split; [|split]]].
  - apply String.eqb_neq. exact Et.
  - apply String.eqb_neq. exact Ea.
  - unfold i32_as_u32. apply Z.mod_pos_bound. lia.
Qed.

Lemma windows_loop_origin (array : list Windows.WindowDict) (w : Windows.WindowInfo) :
  In w (Windows.windows_loop array) -> exists dict, In dict array /\ Windows.window_of dict = Some w.
Proof.
  induction array as [|dict rest IH]; simpl; [contradiction|].
  destruct (Windows.window_of dict) as [w'|] eqn:E.
  - intros [<- | H]; [exists dict; auto|]. destruct (IH H) as [d' [Hin Hd]]. eauto.
  - intros H. destruct (IH H) as [d' [Hin Hd]]. eauto.
Qed.

(** Every window [get_windows] returns comes from a window dictionary of the
    list, is at least 50 x 50 (and at most [u32::MAX] each way), has a
    non-empty title, is not owned by "ScreenCapture", and has an id in the
    [u32] range. *)
Theorem get_windows_kept :
  forall cf ws w,
    Windows.get_windows cf = Ok ws -> In w ws ->
    (exists array dict, cf = Some array /\ In dict array /\ Windows.window_of dict = Some w) /\
    (50 <= Windows.width w <= 4294967295)%Z /\ (50 <= Windows.height w <= 4294967295)%Z /\
    Windows.title w <> "" /\ Windows.app_name w <> "ScreenCapture" /\
    (0 <= Windows.id w < 4294967296)%Z.
Proof.
  intros [array|] ws w H Hin; simpl in H; injection H as <-; [|contradiction].
  destruct (windows_loop_origin array w Hin) as [dict [Hd Hw]].
  split; [exists array, dict; auto|]. exact (window_of_kept dict w Hw).
Qed.



End ContentProviderTheorems.

Section PixelEdgeTheorems.
Import Shot.

Lemma normalize_pixel (img : CGImageInfo) (d buf : list Byte.byte) (x y : N) :
  (width img < 4294967296)%N -> (height img < 4294967296)%N ->
  normalize img d = Ok buf -> (x < width img)%N -> (y < height img)%N ->
  firstn 4 (skipn (N.to_nat (4 * (y * width img + x))) buf) =
    pixel_bytes (is_bgra img) d (px_offset img x y) /\
  (px_offset img x y + 3 < len d)%N.
Proof.
  intros Hw Hh Hn Hx Hy.
  rewrite normalize_cases in Hn by lia.
  destruct (_ && _) eqn:C in Hn; [|discriminate]. injection Hn as <-.
  apply andb_true_iff in C as [_ C]. apply N.leb_le in C.
  assert (Hall := rgba_full_of_ge img d C).
  assert (Hpix : forall x' y', (x' < width img)%N -> (y' < height img)%N ->
            List.length (pixel_bytes (is_bgra img) d (px_offset img x' y')) = 4).
  { intros x' y' Hx' Hy'. rewrite pixel_bytes_length.
    replace (px_offset img x' y' + 3 <? len d)%N with true; [reflexivity|].
    symmetry. apply N.ltb_lt, Hall; assumption. }
  split; [|apply Hall; assumption].
  replace (N.to_nat (4 * (y * width img + x)))
    with (4 * N.to_nat x + (4 * N.to_nat (width img)) * N.to_nat y)
    by (rewrite !N2Nat.inj_mul, N2Nat.inj_add, N2Nat.inj_mul; lia).
  rewrite <- skipn_skipn, rgba_loop_eq.
  rewrite (flat_map_skipn _ (4 * N.to_nat (width img)))
    by (intros y' Hy'; apply in_range in Hy'; apply row_full_iff;
        intros x' Hx'; apply Hall; assumption).
  rewrite (skipn_cons_nth (range (height img)) (N.to_nat y) 0%N)
    by (rewrite length_range; lia).
  rewrite nth_range by exact Hy. cbn [flat_map].
  rewrite skipn_app.
  rewrite (flat_map_skipn _ 4)
    by (intros x' Hx'; apply in_range in Hx'; apply Hpix; assumption).
  rewrite (skipn_cons_nth (range (width img)) (N.to_nat x) 0%N)
    by (rewrite length_range; lia).
  rewrite nth_range by exact Hx. cbn [flat_map].
  rewrite <- app_assoc, firstn_app, (Hpix x y Hx Hy), Nat.sub_diag, firstn_O, app_nil_r.
  apply firstn_all2. rewrite (Hpix x y Hx Hy). lia.
Qed.

(** With 24 bits per pixel the loop still reads four bytes per pixel: the
    fourth output byte (alpha) of pixel [(x, y)] is the source byte at the
    offset of pixel [(x + 1, y)], which that next pixel also outputs. *)
Theorem normalize_24bit_alpha_from_next :
  forall img d buf x y,
    (width img < 4294967296)%N -> (height img < 4294967296)%N ->
    bits_per_pixel img = 24%N ->
    normalize img d = Ok buf -> (x < width img)%N -> (y < height img)%N ->
    nth 3 (firstn 4 (skipn (N.to_nat (4 * (y * width img + x))) buf)) Byte.x00 =
      at_ d (px_offset img (x + 1) y) /\
    ((x + 1 < width img)%N ->
     In (at_ d (px_offset img (x + 1) y))
        (firstn 4 (skipn (N.to_nat (4 * (y * width img + (x + 1)))) buf))).
Proof.
  intros img d buf x y Hw Hh Hb Hn Hx Hy.
  assert (Ho : px_offset img (x + 1) y = (px_offset img x y + 3)%N)
    by (unfold px_offset; rewrite Hb; change (24 / 8)%N with 3%N; lia).
  destruct (normalize_pixel img d buf x y Hw Hh Hn Hx Hy) as [Ep Hr].
  split.
  - rewrite Ep, Ho. unfold pixel_bytes.
    replace (px_offset img x y + 3 <? len d)%N with true by (symmetry; apply N.ltb_lt; exact Hr).
    destruct (is_bgra img); reflexivity.
  - intros Hx1. destruct (normalize_pixel img d buf (x + 1) y Hw Hh Hn Hx1 Hy) as [Ep1 Hr1].
    rewrite Ep1. unfold pixel_bytes.
    replace (px_offset img (x + 1) y + 3 <? len d)%N with true
      by (symmetry; apply N.ltb_lt; exact Hr1).
    destruct (is_bgra img); simpl; auto.
Qed.

(** Below 8 bits per pixel, [bits_per_pixel / 8] is 0: every pixel of a row
    is read at the row start, so all pixels of a row come out identical. *)
Theorem normalize_subbyte_rows_uniform :
  forall img d buf x y,
    (width img < 4294967296)%N -> (height img < 4294967296)%N ->
    (bits_per_pixel img < 8)%N ->
    normalize img d = Ok buf -> (x < width img)%N -> (y < height img)%N ->
    firstn 4 (skipn (N.to_nat (4 * (y * width img + x))) buf) =
    firstn 4 (skipn (N.to_nat (4 * (y * width img + 0))) buf).
Proof.
  intros img d buf x y Hw Hh Hb Hn Hx Hy.
  assert (H0 : (0 < width img)%N) by lia.
  destruct (normalize_pixel img d buf x y Hw Hh Hn Hx Hy) as [Ep _].
  destruct (normalize_pixel img d buf 0 y Hw Hh Hn H0 Hy) as [Ep0 _].
  rewrite Ep, Ep0. f_equal. unfold px_offset.
  rewrite N.div_small by exact Hb. lia.
Qed.

End PixelEdgeTheorems.

(** * Witnesses of the further properties *)

Section FurtherWitnesses.
Import Storage.

Lemma toggle_favorite_first_only_witness :
  toggle_favorite
    {| items := [{| id := "a"; capture_type := Screenshot; filename := "a.png";
                    created_at := "t"; is_favorite := false |};
                 {| id := "b"; capture_type := Screenshot; filename := "b.png";
                    created_at := "t"; is_favorite := false |};
                 {| id := "b"; capture_type := Gif; filename := "b.gif";
                    created_at := "t"; is_favorite := true |}] |} "b" =
  (true, {| items := [{| id := "a"; capture_type := Screenshot; filename := "a.png";
                         created_at := "t"; is_favorite := false |};
                      {| id := "b"; capture_type := Screenshot; filename := "b.png";
                         created_at := "t"; is_favorite := true |};
                      {| id := "b"; capture_type := Gif; filename := "b.gif";
                         created_at := "t"; is_favorite := true |}] |}).
Proof.
  apply (toggle_favorite_first_only _ "b"
           [{| id := "a"; capture_type := Screenshot; filename := "a.png";
               created_at := "t"; is_favorite := false |}]
           {| id := "b"; capture_type := Screenshot; filename := "b.png";
              created_at := "t"; is_favorite := false |}
           [{| id := "b"; capture_type := Gif; filename := "b.gif";
               created_at := "t"; is_favorite := true |}]).
  - reflexivity.
  - simpl. intros [H|[]]. discriminate.
  - reflexivity.
Defined.

Lemma generate_filename_type_distinct_witness :
  generate_filename
    {| year := 2025; month := 3; day := 7; hour := 9; minute := 5; second := 1;
       nanosecond := 0 |} Screenshot "png" <>
  generate_filename
    {| year := 2025; month := 3; day := 7; hour := 9; minute := 5; second := 1;
       nanosecond := 0 |} Recording "png".
Proof. apply generate_filename_type_distinct. discriminate. Defined.

Lemma generate_filename_injective_witness :
  Screenshot = Screenshot /\ "png" = "png" /\
  same_second
    {| year := 2025; month := 3; day := 7; hour := 9; minute := 5; second := 1;
       nanosecond := 0 |}
    {| year := 2025; month := 3; day := 7; hour := 9; minute := 5; second := 1;
       nanosecond := 500000000 |}.
Proof.
  apply generate_filename_injective; try reflexivity; simpl; lia.
Defined.

End FurtherWitnesses.

Lemma recording_state_fixed_outside_recording_witness :
  Forall (fun s' => s' = Rec.Idle)
    (Rec.trace [Rec.CStart (Fullscreen None)
                  {| quality := High; fps := 60; include_cursor := true;
                     show_mouse_clicks := true; include_microphone := false;
                     include_system_audio := true; exclude_app_audio := true |};
                Rec.CCancel; Rec.CStop; Rec.CGetState] Rec.Idle).
Proof. apply recording_state_fixed_outside_recording. reflexivity. Defined.

Section StorageCommandWitnesses.
Import Storage StorageIO.

Lemma save_screenshot_ok_witness :
  let e := {| env_data_dir := Some "/d"; env_desktop_dir := Some "/desk";
              io_error := fun _ _ => None;
              history_json := fun _ => [Byte.x7b]; settings_json := fun _ => [Byte.x7b] |} in
  let w := {| storage := {| history := {| items := [] |}; location := Default |};
              fs := {| files := []; dirs := []; ticks := 0 |} |} in
  let now := {| year := 2025; month := 3; day := 7; hour := 9; minute := 5; second := 1;
                nanosecond := 0 |} in
  let item := new_screenshot "u1" "t0" (generate_filename now Screenshot "png") in
  let w' := snd (save_screenshot [Byte.x01] Png now "u1" "t0" e w) in
  item = new_screenshot "u1" "t0" (generate_filename now Screenshot (format_extension Png)) /\
  storage w' = {| history := add (history (storage w)) item;
                  location := location (storage w) |} /\
  lookup_file (join (data_dir e) "history.json") (files (fs w')) =
    Some (history_json e (history (storage w'))).
Proof.
  intros e w now item w'. apply (save_screenshot_ok [Byte.x01] Png now "u1" "t0" e w item w').
  vm_compute. reflexivity.
Defined.

Lemma save_screenshot_write_fails_witness :
  let e := {| env_data_dir := Some "/d"; env_desktop_dir := Some "/desk";
              io_error := fun _ op => match op with
                                      | WriteFile _ => Some "Read-only file system"
                                      | _ => None end;
              history_json := fun _ => [Byte.x7b]; settings_json := fun _ => [Byte.x7b] |} in
  let w := {| storage := {| history := {| items := [] |}; location := Default |};
              fs := {| files := []; dirs := []; ticks := 0 |} |} in
  let now := {| year := 2025; month := 3; day := 7; hour := 9; minute := 5; second := 1;
                nanosecond := 0 |} in
  (exists msg, fst (save_screenshot [Byte.x01] Png now "u1" "t0" e w) = Err (Io msg)) /\
  storage (snd (save_screenshot [Byte.x01] Png now "u1" "t0" e w)) = storage w.
Proof.
  intros e w now. apply save_screenshot_write_fails. intros n. discriminate.
Defined.

Lemma save_screenshot_history_not_saved_witness :
  let e := {| env_data_dir := Some "/d"; env_desktop_dir := Some "/desk";
              io_error := fun _ op => match op with
                                      | WriteFile p => if String.eqb p "/d/ScreenCapture/history.json"
                                                       then Some "No space left on device"
                                                       else None
                                      | _ => None end;
              history_json := fun _ => [Byte.x7b]; settings_json := fun _ => [Byte.x7b] |} in
  let w := {| storage := {| history := {| items := [] |}; location := Default |};
              fs := {| files := []; dirs := []; ticks := 0 |} |} in
  let now := {| year := 2025; month := 3; day := 7; hour := 9; minute := 5; second := 1;
                nanosecond := 0 |} in
  fst (save_screenshot [Byte.x01] Png now "u1" "t0" e w) = Err (Io "No space left on device") /\
  storage (snd (save_screenshot [Byte.x01] Png now "u1" "t0" e w)) =
    {| history := add (history (storage w))
                    (new_screenshot "u1" "t0"
                       (generate_filename now Screenshot (format_extension Png)));
       location := location (storage w) |}.
Proof.
  intros e w now. apply save_screenshot_history_not_saved.
  - intros n p. reflexivity.
  - intros n. vm_compute. reflexivity.
  - intros n. vm_compute. reflexivity.
Defined.

Lemma delete_capture_absent_witness :
  let e := {| env_data_dir := Some "/d"; env_desktop_dir := Some "/desk";
              io_error := fun _ _ => None;
              history_json := fun _ => [Byte.x7b]; settings_json := fun _ => [Byte.x7b] |} in
  let w := {| storage := {| history := {| items := [{| id := "a"; capture_type := Screenshot;
                                                      filename := "a.png"; created_at := "t";
                                                      is_favorite := false |}] |};
                            location := Default |};
              fs := {| files := []; dirs := []; ticks := 0 |} |} in
  StorageCommands.delete_capture "z" e w = (Ok false, w).
Proof.
  intros e w. apply delete_capture_absent. simpl. intros [H|[]]. discriminate.
Defined.

Lemma delete_capture_present_witness :
  let e := {| env_data_dir := Some "/d"; env_desktop_dir := Some "/desk";
              io_error := fun _ op => match op with
                                      | RemoveFile _ => Some "No such file or directory"
                                      | _ => None end;
              history_json := fun _ => [Byte.x7b]; settings_json := fun _ => [Byte.x7b] |} in
  let w := {| storage := {| history := {| items := [{| id := "a"; capture_type := Screenshot;
                                                      filename := "a.png"; created_at := "t";
                                                      is_favorite := false |}] |};
                            location := Default |};
              fs := {| files := []; dirs := []; ticks := 0 |} |} in
  storage (snd (StorageCommands.delete_capture "a" e w)) =
    {| history := snd (remove (history (storage w)) "a"); location := location (storage w) |} /\
  (fst (StorageCommands.delete_capture "a" e w) = Ok true \/
   exists msg, fst (StorageCommands.delete_capture "a" e w) = Err (Io msg)) /\
  ((forall n p, io_error e n (CreateDirAll p) = None) ->
   (forall n p, io_error e n (WriteFile p) = None) ->
   fst (StorageCommands.delete_capture "a" e w) = Ok true).
Proof.
  intros e w. apply delete_capture_present. simpl. left. reflexivity.
Defined.

Lemma desktop_without_dir_relative_witness :
  let e := {| env_data_dir := Some "/d"; env_desktop_dir := None;
              io_error := fun _ _ => None;
              history_json := fun _ => [Byte.x7b]; settings_json := fun _ => [Byte.x7b] |} in
  let s := {| history := {| items := [] |}; location := Desktop |} in
  (forall fname, join (screenshots_dir e s) fname = fname) /\
  (forall w, create_dir_all (screenshots_dir e s) e w = (Ok tt, w)).
Proof. intros e s. apply desktop_without_dir_relative; reflexivity. Defined.

End StorageCommandWitnesses.

Lemma get_windows_kept_witness :
  let w := {| Windows.id := 42; Windows.title := "Notes"; Windows.app_name := "Editor";
              Windows.width := 800; Windows.height := 600 |} in
  (exists array dict, Some
     [{| Windows.k_layer := Some (Some 0%Z); Windows.k_number := Some (Some 42%Z);
         Windows.k_name := Some "Notes"; Windows.k_owner := Some "Editor";
         Windows.k_bounds := Some (Some (Some (S754_finite false 25 5)),
                                   Some (Some (S754_finite false 75 3))) |};
      {| Windows.k_layer := Some (Some 0%Z); Windows.k_number := Some (Some 43%Z);
         Windows.k_name := Some "Tip"; Windows.k_owner := Some "Editor";
         Windows.k_bounds := Some (Some (Some (S754_finite false 5 3)),
                                   Some (Some (S754_finite false 75 3))) |}] = Some array /\
     In dict array /\ Windows.window_of dict = Some w) /\
  (50 <= Windows.width w <= 4294967295)%Z /\ (50 <= Windows.height w <= 4294967295)%Z /\
  Windows.title w <> "" /\ Windows.app_name w <> "ScreenCapture" /\
  (0 <= Windows.id w < 4294967296)%Z.
Proof.
  intros w. apply (get_windows_kept _ [w] w).
  - vm_compute. reflexivity.
  - left. reflexivity.
Defined.


Lemma normalize_24bit_alpha_from_next_witness :
  let img := {| Shot.width := 2; Shot.height := 1; Shot.bytes_per_row := 6;
                Shot.bits_per_pixel := 24; Shot.bitmap_info := 0 |} in
  let d := [Byte.x01; Byte.x02; Byte.x03; Byte.x04; Byte.x05; Byte.x06; Byte.x07] in
  let buf := [Byte.x01; Byte.x02; Byte.x03; Byte.x04; Byte.x04; Byte.x05; Byte.x06; Byte.x07] in
  nth 3 (firstn 4 (skipn (N.to_nat (4 * (0 * Shot.width img + 0))) buf)) Byte.x00 =
    Shot.at_ d (Shot.px_offset img (0 + 1) 0) /\
  ((0 + 1 < Shot.width img)%N ->
   In (Shot.at_ d (Shot.px_offset img (0 + 1) 0))
      (firstn 4 (skipn (N.to_nat (4 * (0 * Shot.width img + (0 + 1)))) buf))).
Proof.
  intros img d buf. apply normalize_24bit_alpha_from_next; vm_compute; reflexivity.
Defined.

Lemma normalize_subbyte_rows_uniform_witness :
  let img := {| Shot.width := 2; Shot.height := 1; Shot.bytes_per_row := 1;
                Shot.bits_per_pixel := 1; Shot.bitmap_info := 0 |} in
  let d := [Byte.x0a; Byte.x0b; Byte.x0c; Byte.x0d] in
  let buf := [Byte.x0a; Byte.x0b; Byte.x0c; Byte.x0d; Byte.x0a; Byte.x0b; Byte.x0c; Byte.x0d] in
  firstn 4 (skipn (N.to_nat (4 * (0 * Shot.width img + 1))) buf) =
  firstn 4 (skipn (N.to_nat (4 * (0 * Shot.width img + 0))) buf).
Proof.
  intros img d buf. apply (normalize_subbyte_rows_uniform img d); vm_compute; reflexivity.
Defined.
